(** * Rapid-Zip: the MC2v1 image codec of [compressor/core.py]

    A shallow embedding of [core.py] and the properties of its container
    format, zig-zag tables, quantisation matrix and reconstruction step.

    - Integers are [Z]; bytes are [Byte.byte]; byte strings are [list byte].
    - Python exceptions are values of [exn], carried by [result].
    - float32 / float64 values are [spec_float] with the IEEE-754 operations
      of the Standard Library ([SFmul], [SFdiv], ...), every one of which
      computes.
    - The file system touched by [compress_image] is a [gmap string (list byte)].
    - The calls into Pillow, SciPy, NumPy's archive format and zlib are the
      fields of a record [Libs]; the codec is a function of that record. *)

From Stdlib Require Import ZArith List Lia Strings.Byte Strings.Ascii String.
From Stdlib Require Import Floats.SpecFloat.
From stdpp Require Import gmap strings list.

Open Scope Z_scope.

(* ================================================================== *)
(** * Part I: the program *)
(* ================================================================== *)

(** ** Exceptions *)

(** The exception classes that [core.py] can let escape.  [ExternalError]
    stands for whatever a library call raises on its own input (Pillow on an
    unreadable image, [zlib.error], a missing key of the archive, ...). *)
Inductive exn : Type :=
| ValueError
| StructError
| ZeroDivisionError
| IndexError
| FileNotFoundError
| OverflowError
| ExternalError.

Inductive result (A : Type) : Type :=
| Ok (a : A)
| Raise (e : exn).
Arguments Ok {A} a.
Arguments Raise {A} e.

#[global] Instance result_ret : MRet result := fun _ a => Ok a.
#[global] Instance result_bind : MBind result := fun _ _ f r =>
  match r with
  | Ok a => f a
  | Raise e => Raise e
  end.
#[global] Instance result_fmap : FMap result := fun _ _ f r =>
  match r with
  | Ok a => Ok (f a)
  | Raise e => Raise e
  end.

Definition is_Ok {A} (r : result A) : bool :=
  match r with Ok _ => true | Raise _ => false end.

(** [mapM] for [result]: the first exception wins, as in a Python loop. *)
Fixpoint result_mapM {A B} (f : A -> result B) (l : list A) : result (list B) :=
  match l with
  | [] => Ok []
  | x :: l' => y ← f x; ys ← result_mapM f l'; Ok (y :: ys)
  end.

(** ** Bytes and [struct] *)

#[global] Instance byte_eq_decision : EqDecision byte := Byte.byte_eq_dec.

Definition Z_of_byte (b : byte) : Z := Z.of_N (Byte.to_N b).

Definition byte_of_Z (z : Z) : byte :=
  match Byte.of_N (Z.to_N (z mod 256)) with
  | Some b => b
  | None => "000"%byte
  end.

(** Big-endian digits of [v] on [n] bytes, and their value. *)
Fixpoint be_bytes (n : nat) (v : Z) : list byte :=
  match n with
  | O => []
  | S k => be_bytes k (v / 256) ++ [byte_of_Z v]
  end.

Definition be_value (bs : list byte) : Z :=
  fold_left (fun acc b => acc * 256 + Z_of_byte b) bs 0.

(** One unsigned field of [struct.pack(">...")]: [struct.error] when the
    argument does not fit the field. *)
Definition pack_field (size : nat) (v : Z) : result (list byte) :=
  if (0 <=? v) && (v <? 256 ^ Z.of_nat size)
  then Ok (be_bytes size v)
  else Raise StructError.

(** [MAGIC = b"MC2v1"] *)
Definition MAGIC : list byte := list_byte_of_string "MC2v1".

(** [struct.calcsize(">II4B Q")]; white space in a format is ignored and
    [">"] adds no padding. *)
Definition header_fields_size : nat := 20.

(** [_pack_header]:
    [MAGIC + struct.pack(">II4B Q", w, h, channels, block_size, down, quality, base_len)] *)
Definition _pack_header (w h channels block_size down quality base_len : Z)
  : result (list byte) :=
  bw ← pack_field 4 w;
  bh ← pack_field 4 h;
  bc ← pack_field 1 channels;
  bb ← pack_field 1 block_size;
  bd ← pack_field 1 down;
  bq ← pack_field 1 quality;
  bl ← pack_field 8 base_len;
  Ok (MAGIC ++ bw ++ bh ++ bc ++ bb ++ bd ++ bq ++ bl).

(** The dictionary returned by [_unpack_header]. *)
Record Header : Type := mkHeader {
  h_w : Z;
  h_h : Z;
  h_channels : Z;
  h_block_size : Z;
  h_down : Z;
  h_quality : Z;
  h_base_len : Z
}.

(** A binary file object is the list of the bytes not read yet. *)
Abbreviation fileobj := (list byte).

(** [f.read(n)] for a size [n] that fits a C index (the literal sizes of
    [_unpack_header], the 8 bytes of a length field): at most [n] bytes are
    handed out, fewer at the end of the file. *)
Definition f_read (n : nat) (f : fileobj) : list byte * fileobj :=
  (take n f, drop n f).

(** [f.read(n)] for an integer [n] taken from the file: the size is
    converted to a C [Py_ssize_t], so a size of [2^63] or more raises
    [OverflowError]; a negative size reads to the end of the file. *)
Definition f_read_int (n : Z) (f : fileobj) : result (list byte * fileobj) :=
  if decide (2 ^ 63 <= n) then Raise OverflowError
  else if decide (n < 0) then Ok (f, [])
  else Ok (f_read (Z.to_nat n) f).

(** [struct.unpack(">II4B Q", buf)]: [struct.error] unless [buf] has
    exactly 20 bytes. *)
Definition unpack_fields (buf : list byte) : result Header :=
  if decide (length buf = header_fields_size) then
    Ok {| h_w := be_value (take 4 buf);
          h_h := be_value (take 4 (drop 4 buf));
          h_channels := be_value (take 1 (drop 8 buf));
          h_block_size := be_value (take 1 (drop 9 buf));
          h_down := be_value (take 1 (drop 10 buf));
          h_quality := be_value (take 1 (drop 11 buf));
          h_base_len := be_value (take 8 (drop 12 buf)) |}
  else Raise StructError.

(** [_unpack_header] *)
Definition _unpack_header (f : fileobj) : result (Header * fileobj) :=
  let '(magic, f) := f_read (length MAGIC) f in
  if decide (magic = MAGIC) then
    let '(buf, f) := f_read header_fields_size f in
    hdr ← unpack_fields buf;
    Ok (hdr, f)
  else Raise ValueError.

(** [struct.unpack(">Q", b)] *)
Definition unpack_Q (b : list byte) : result Z :=
  if decide (length b = 8%nat) then Ok (be_value b) else Raise StructError.

(** ** Floating point

    [spec_float] is the Standard Library's IEEE-754 datum; the operations
    take the precision and the exponent bound: 24/128 for NumPy's float32,
    53/1024 for Python's float. *)

Abbreviation float32 := spec_float (only parsing).
Abbreviation float64 := spec_float (only parsing).

Definition f32_add := SFadd 24 128.
Definition f32_sub := SFsub 24 128.
Definition f32_mul := SFmul 24 128.
Definition f32_div := SFdiv 24 128.
Definition f64_sub := SFsub 53 1024.
Definition f64_div := SFdiv 53 1024.

Definition f32_zero : float32 := S754_zero false.

(** Integer to float, correctly rounded. *)
Definition f32_of_Z (z : Z) : float32 := binary_normalize 24 128 z 0 false.
Definition f64_of_Z (z : Z) : float64 := binary_normalize 53 1024 z 0 false.

(** The cast of a Python float to float32 that NumPy applies to a scalar
    operand of a float32 array. *)
Definition f32_of_f64 (x : float64) : float32 :=
  match x with
  | S754_finite s m e => binary_normalize 24 128 (cond_Zopp s (Zpos m)) e s
  | _ => x
  end.

(** Python's [float(int)]: [OverflowError] beyond the double range. *)
Definition py_float (z : Z) : result float64 :=
  match f64_of_Z z with
  | S754_infinity _ => Raise OverflowError
  | x => Ok x
  end.

(** Python's [a / b] on floats. *)
Definition py_truediv (a b : float64) : result float64 :=
  match b with
  | S754_zero _ => Raise ZeroDivisionError
  | _ => Ok (f64_div a b)
  end.

(** The result of [np.round]: a float whose value is an integer, an
    infinity or NaN.  It is kept by its exact value; the sign of a zero is
    dropped, every consumer below ([np.clip], [astype]) ignores it. *)
Inductive ifloat : Type :=
| IFin (z : Z)
| IInf (neg : bool)
| INaN.

(** Nearest integer to [m * 2^e], a tie going to the even neighbour: the
    C [rint] in the default rounding mode, which [np.round] calls. *)
Definition rint_mag (m : positive) (e : Z) : Z :=
  if 0 <=? e then Zpos m * 2 ^ e
  else
    let d := 2 ^ (- e) in
    let q := Zpos m / d in
    let r := Zpos m mod d in
    match 2 * r ?= d with
    | Lt => q
    | Gt => q + 1
    | Eq => if Z.even q then q else q + 1
    end.

Definition np_round (x : spec_float) : ifloat :=
  match x with
  | S754_zero _ => IFin 0
  | S754_infinity s => IInf s
  | S754_nan => INaN
  | S754_finite s m e => IFin (cond_Zopp s (rint_mag m e))
  end.

(** [np.clip(x, lo, hi)] = [minimum(maximum(x, lo), hi)]; NaN stays NaN. *)
Definition np_clip (lo hi : Z) (x : ifloat) : ifloat :=
  match x with
  | IFin z => IFin (Z.min (Z.max z lo) hi)
  | IInf true => IFin lo
  | IInf false => IFin hi
  | INaN => INaN
  end.

Definition f32_of_ifloat (x : ifloat) : float32 :=
  match x with
  | IFin z => f32_of_Z z
  | IInf s => S754_infinity s
  | INaN => S754_nan
  end.

(** Two's-complement reduction to [bits] bits. *)
Definition wrap_signed (bits : Z) (z : Z) : Z :=
  (z + 2 ^ (bits - 1)) mod 2 ^ bits - 2 ^ (bits - 1).

(** [.astype(np.int16)] of a rounded float.  NumPy does not check the range:
    the C conversion goes through a 32-bit integer whose low 16 bits are
    kept.  Beyond 32 bits, and for infinities and NaN, the x86-64
    conversion yields the pattern 0x80000000, whose low half is 0. *)
Definition astype_int16 (x : ifloat) : Z :=
  match x with
  | IFin z => if (- 2 ^ 31 <=? z) && (z <? 2 ^ 31) then wrap_signed 16 z else 0
  | _ => 0
  end.

(** [.astype(np.uint8)], same conversion, low 8 bits. *)
Definition astype_uint8 (x : ifloat) : Z :=
  match x with
  | IFin z => if (- 2 ^ 31 <=? z) && (z <? 2 ^ 31) then z mod 256 else 0
  | _ => 0
  end.

(** ** Quantisation matrix *)

Definition _Q50 : list (list Z) :=
  [ [16;11;10;16;24;40;51;61];
    [12;12;14;19;26;58;60;55];
    [14;13;16;24;40;57;69;56];
    [14;17;22;29;51;87;80;62];
    [18;22;37;56;68;109;103;77];
    [24;35;55;64;81;104;113;92];
    [49;64;78;87;103;121;120;101];
    [72;92;95;98;112;100;103;99] ].

(** The [scale] of [quant_matrix]:
    [50.0 / quality] below 50, [2.0 - (quality / 50.0)] from 50 on. *)
Definition quant_scale (quality : Z) : result float64 :=
  qf ← py_float quality;
  if quality <? 50 then py_truediv (f64_of_Z 50) qf
  else d ← py_truediv qf (f64_of_Z 50); Ok (f64_sub (f64_of_Z 2) d).

(** One cell of [np.round(q * scale)], before the clip. *)
Definition scaled_cell (scale : float32) (c : Z) : ifloat :=
  np_round (f32_mul (f32_of_Z c) scale).

(** [quant_matrix]: [np.clip(np.round(q * scale), 1, 255)] over [_Q50]. *)
Definition quant_matrix (quality : Z) : result (list (list ifloat)) :=
  scale ← quant_scale quality;
  Ok (map (map (fun c => np_clip 1 255 (scaled_cell (f32_of_f64 scale) c))) _Q50).

(** ** Zig-zag tables *)

Definition _ZIGZAG_IDX : list Z :=
  [ 0; 1; 5; 6;14;15;27;28;
    2; 4; 7;13;16;26;29;42;
    3; 8;12;17;25;30;41;43;
    9;11;18;24;31;40;44;53;
    10;19;23;32;39;45;52;54;
    20;22;33;38;46;51;55;60;
    21;34;37;47;50;56;59;61;
    35;36;48;49;57;58;62;63 ].

(** [np.argsort]: the positions of the keys in increasing key order.  The
    sort is an insertion sort on (key, position) pairs; for pairwise distinct
    keys every sorting algorithm returns the same positions. *)
Fixpoint argsort_insert (x : Z * nat) (l : list (Z * nat)) : list (Z * nat) :=
  match l with
  | [] => [x]
  | y :: l' => if x.1 <=? y.1 then x :: y :: l' else y :: argsort_insert x l'
  end.

Definition argsort (keys : list Z) : list nat :=
  map snd (foldr argsort_insert [] (zip keys (seq 0 (length keys)))).

(** [_ZIGZAG_POS = np.argsort(_ZIGZAG_IDX)] *)
Definition _ZIGZAG_POS : list nat := argsort _ZIGZAG_IDX.

(** [v[idx]] with an index array: [result[k] = v[idx[k]]], [IndexError]
    for a position outside [v]. *)
Definition take_idx {A} (v : list A) (idx : list nat) : result (list A) :=
  result_mapM (fun i => match v !! i with
                        | Some x => Ok x
                        | None => Raise IndexError
                        end) idx.

(** [q[idx] = flat] with an index array: [q[idx[k]] = flat[k]] in the order
    of [k]; a one-element [flat] is broadcast, any other length mismatch is
    a [ValueError]; [IndexError] for a position outside [q]. *)
Fixpoint put_pairs {A} (q : list A) (pairs : list (nat * A)) : result (list A) :=
  match pairs with
  | [] => Ok q
  | (i, x) :: rest =>
      if decide (i < length q)%nat then put_pairs (<[i := x]> q) rest
      else Raise IndexError
  end.

Definition put_idx {A} (q : list A) (idx : list nat) (flat : list A) : result (list A) :=
  if decide (length flat = length idx) then put_pairs q (zip idx flat)
  else match flat with
       | [x] => put_pairs q (zip idx (replicate (length idx) x))
       | _ => Raise ValueError
       end.

(** ** Two-dimensional arrays

    An array of shape (R, C) is the list of its R rows. *)

(** [a.flatten()], row-major. *)
Definition flatten {A} (a : list (list A)) : list A := concat a.

(** [v.reshape((8,8))] of a 64-vector. *)
Fixpoint reshape_rows {A} (rows cols : nat) (v : list A) : list (list A) :=
  match rows with
  | O => []
  | S r => take cols v :: reshape_rows r cols (drop cols v)
  end.

(** [a.T] *)
Fixpoint transpose {A} (a : list (list A)) : list (list A) :=
  match a with
  | [] => []
  | row :: rest =>
      match rest with
      | [] => map (fun x => [x]) row
      | _ => zip_with cons row (transpose rest)
      end
  end.

(** [a[i:i+n, j:j+m]]; a slice stops at the edge of the array. *)
Definition slice2 {A} (i n j m : nat) (a : list (list A)) : list (list A) :=
  map (fun row => take m (drop j row)) (take n (drop i a)).

(** [p = np.zeros((R, C)); p[:H, :W] = a] for an array [a] of shape (H, W)
    with [H <= R] and [W <= C]. *)
Definition pad_zeros {A} (zero : A) (R C : nat) (a : list (list A)) : list (list A) :=
  take R (map (fun row => take C (row ++ replicate C zero)) a
          ++ replicate R (replicate C zero)).

(** [range(0, stop, step)] for a positive [step]. *)
Definition py_range0 (stop step : nat) : list nat :=
  map (fun k => (k * step)%nat) (seq 0 ((stop + step - 1) / step)%nat).

(** [_blockify(channel, block)] with [H, W = channel.shape]: the blocks in
    the order in which the generator yields them. *)
Definition _blockify (H W : Z) (channel : list (list float32)) (block : Z)
  : list (nat * nat * list (list float32)) :=
  let H2 := ((H + block - 1) / block) * block in
  let W2 := ((W + block - 1) / block) * block in
  let padded := pad_zeros f32_zero (Z.to_nat H2) (Z.to_nat W2) channel in
  let b := Z.to_nat block in
  i ← py_range0 (Z.to_nat H2) b;
  j ← py_range0 (Z.to_nat W2) b;
  [(i, j, slice2 i b j b padded)].

(** [_unblockify]: [recon_padded[:orig_h, :orig_w]] *)
Definition _unblockify {A} (recon_padded : list (list A)) (orig_h orig_w : Z)
  : list (list A) :=
  map (take (Z.to_nat orig_w)) (take (Z.to_nat orig_h) recon_padded).

(** ** Images and the libraries behind the codec *)

Definition pixel : Type := Z * Z * Z.

(** A Pillow image in mode "RGB": its [size] (width, height) and its rows
    of pixels. *)
Record image : Type := mkImage {
  im_size : Z * Z;
  im_px : list (list pixel)
}.

(** The library calls of [core.py].  Their results are not computed by the
    repository; the codec is modelled as a function of them. *)
Record Libs : Type := mkLibs {
  (** [Image.open(...).convert("RGB")] on the bytes of a file *)
  Image_open : list byte -> result image;
  (** [im.resize(size, resample=Image.LANCZOS)] *)
  Image_resize_LANCZOS : image -> Z * Z -> result image;
  (** [im.resize(size, resample=Image.BICUBIC)] *)
  Image_resize_BICUBIC : image -> Z * Z -> result image;
  (** [im.save(buf, format="PNG", optimize=True); buf.getvalue()] *)
  Image_save_PNG : image -> result (list byte);
  (** [scipy.fftpack.dct(a, norm='ortho')], along the last axis *)
  dct : list (list float32) -> list (list float32);
  (** [scipy.fftpack.idct(a, norm='ortho')] *)
  idct : list (list float32) -> list (list float32);
  (** [np.savez_compressed(buf, r=.., g=.., b=..); buf.getvalue()] *)
  np_savez_compressed : list (list Z) -> list (list Z) -> list (list Z) -> list byte;
  (** [npz = np.load(buf)] then [npz["r"], npz["g"], npz["b"]], for archives
      of two-dimensional int16 arrays *)
  np_load : list byte -> result (list (list Z) * list (list Z) * list (list Z));
  (** [zlib.compress(data, level=6)] *)
  zlib_compress : list byte -> list byte;
  (** [zlib.decompress(data)] *)
  zlib_decompress : list byte -> result (list byte)
}.

(** [np.asarray(im, dtype=np.float32)], shape (height, width, 3) *)
Definition asarray_f32 (im : image) : list (list (float32 * float32 * float32)) :=
  map (map (fun '(r, g, b) => (f32_of_Z r, f32_of_Z g, f32_of_Z b))) (im_px im).

(** [a[:, :, ch]] *)
Definition channel {A} (ch : nat) (a : list (list (A * A * A))) : list (list A) :=
  map (map (fun '(r, g, b) => match ch with
                              | O => r
                              | S O => g
                              | _ => b
                              end)) a.

(** [np.stack([r, g, b], axis=2)] *)
Definition stack3 {A} (r g b : list (list A)) : list (list (A * A * A)) :=
  zip_with (fun rg brow => zip_with (fun '(x, y) z => (x, y, z)) rg brow)
           (zip_with zip r g) b.

(** [blk.shape] *)
Definition shape2 {A} (a : list (list A)) : nat * nat :=
  (length a, match a with [] => O | row :: _ => length row end).

(** [np.stack(arrays, axis=0)]: [ValueError] without any array. *)
Definition np_stack {A} (arrays : list A) : result (list A) :=
  match arrays with
  | [] => Raise ValueError
  | _ => Ok arrays
  end.

(** A loop that threads a state and stops at the first exception. *)
Fixpoint result_foldl {S A} (f : S -> A -> result S) (s : S) (l : list A) : result S :=
  match l with
  | [] => Ok s
  | x :: l' => s' ← f s x; result_foldl f s' l'
  end.

(** ** Statistics records *)

Record EncStats : Type := mkEncStats {
  original_bytes : Z;
  base_bytes : Z;
  payload_bytes : Z;
  out_bytes : Z;
  enc_w : Z;
  enc_h : Z;
  enc_down : Z;
  enc_quality : Z
}.

Record DecStats : Type := mkDecStats {
  dec_w : Z;
  dec_h : Z;
  dec_down : Z;
  dec_quality : Z;
  recon_bytes : Z
}.

(** [path.rsplit(".", 1)[0]]: the part before the last dot, if any. *)
Fixpoint before_last_dot (s : string) : option string :=
  match s with
  | EmptyString => None
  | String c s' =>
      match before_last_dot s' with
      | Some p => Some (String c p)
      | None => if decide (c = "."%char) then Some EmptyString else None
      end
  end.

(** [out_path = path.rsplit(".", 1)[0] + "_mc2.mcmp2"] *)
Definition out_path_of (path : string) : string :=
  (default path (before_last_dot path) +:+ "_mc2.mcmp2")%string.

(** ** The codec *)

Section Codec.

Context (lib : Libs).

(** [_dct2]: [dct(dct(block.T, norm='ortho').T, norm='ortho')] *)
Definition _dct2 (block : list (list float32)) : list (list float32) :=
  dct lib (transpose (dct lib (transpose block))).

(** [_idct2]: [idct(idct(block.T, norm='ortho').T, norm='ortho')] *)
Definition _idct2 (block : list (list float32)) : list (list float32) :=
  idct lib (transpose (idct lib (transpose block))).

(** One coefficient of [np.round(d / Q).astype(np.int16)] *)
Definition quantize_coef (d : float32) (q : ifloat) : Z :=
  astype_int16 (np_round (f32_div d (f32_of_ifloat q))).

(** [q = np.round(d / Q).astype(np.int16)] *)
Definition quantize (Q : list (list ifloat)) (d : list (list float32)) : list (list Z) :=
  zip_with (zip_with quantize_coef) d Q.

(** The body of the block loop of [compress_image]: pad if needed, forward
    DCT, quantise, zig-zag flatten. *)
Definition encode_block (Q : list (list ifloat)) (blk : list (list float32))
  : result (list Z) :=
  let blk := if decide (shape2 blk = (8, 8)%nat) then blk
             else pad_zeros f32_zero 8 8 blk in
  let d := _dct2 blk in
  let q := quantize Q d in
  take_idx (flatten q) _ZIGZAG_POS.

(** The loop over the blocks of one channel and the final [np.stack]. *)
Definition encode_channel (Q : list (list ifloat)) (H W : Z)
    (ch_res : list (list float32)) : result (list (list Z)) :=
  flat_coefs ← result_mapM (fun '(_, _, blk) => encode_block Q blk)
                           (_blockify H W ch_res 8);
  np_stack flat_coefs.

(** [residual = orig_arr - up_arr] on float32 arrays of shape (H, W, 3) *)
Definition residual_of (orig_arr up_arr : list (list (float32 * float32 * float32)))
  : list (list (float32 * float32 * float32)) :=
  zip_with (zip_with (fun '(r1, g1, b1) '(r2, g2, b2) =>
              (f32_sub r1 r2, f32_sub g1 g2, f32_sub b1 b2))) orig_arr up_arr.

(** Steps 1 to 4 of [compress_image], from the opened image to the base
    layer bytes and the compressed payload.  Nothing is written here.
    [orig_arr - up_arr] needs arrays of one shape: Pillow returns the size
    it is asked for, and NumPy raises a [ValueError] otherwise. *)
Definition encode_layers (im : image) (quality down : Z)
  : result (list byte * list byte) :=
  let '(orig_w, orig_h) := im_size im in
  _ ← (if decide (down = 0) then Raise ZeroDivisionError else Ok ());
  let base_w := orig_w / down in
  let base_h := orig_h / down in
  base ← Image_resize_LANCZOS lib im (base_w, base_h);
  base_bytes ← Image_save_PNG lib base;
  up_base ← Image_resize_BICUBIC lib base (orig_w, orig_h);
  _ ← (if decide (im_size up_base = im_size im) then Ok () else Raise ValueError);
  let orig_arr := asarray_f32 im in
  let up_arr := asarray_f32 up_base in
  let residual := residual_of orig_arr up_arr in
  Q ← quant_matrix quality;
  coef_r ← encode_channel Q orig_h orig_w (channel 0 residual);
  coef_g ← encode_channel Q orig_h orig_w (channel 1 residual);
  coef_b ← encode_channel Q orig_h orig_w (channel 2 residual);
  let arr_bytes := np_savez_compressed lib coef_r coef_g coef_b in
  let compressed_payload := zlib_compress lib arr_bytes in
  Ok (base_bytes, compressed_payload).

(** Step 5 of [compress_image]: the [with open(out_path, "wb") as fo] block.
    Opening truncates or creates the file; what has been written when an
    exception leaves the block stays in the file. *)
Definition write_container (out_path : string) (orig_w orig_h down quality : Z)
    (base_bytes compressed_payload : list byte) (fs : gmap string (list byte))
  : gmap string (list byte) * result () :=
  let fs := <[out_path := []]> fs in
  match _pack_header orig_w orig_h 3 8 down quality (Z.of_nat (length base_bytes)) with
  | Raise e => (fs, Raise e)
  | Ok header =>
      let fs := <[out_path := header ++ base_bytes]> fs in
      match pack_field 8 (Z.of_nat (length compressed_payload)) with
      | Raise e => (fs, Raise e)
      | Ok payload_len =>
          (<[out_path := header ++ base_bytes ++ payload_len ++ compressed_payload]> fs,
           Ok ())
      end
  end.

(** [len(open(p, "rb").read())] *)
Definition file_len (fs : gmap string (list byte)) (p : string) : result Z :=
  match fs !! p with
  | Some data => Ok (Z.of_nat (length data))
  | None => Raise FileNotFoundError
  end.

(** [compress_image(path, quality, down)], as a transition of the file
    system that returns [(out_path, stats)] or raises. *)
Definition compress_image (path : string) (quality down : Z)
    (fs : gmap string (list byte))
  : gmap string (list byte) * result (string * EncStats) :=
  match fs !! path with
  | None => (fs, Raise FileNotFoundError)
  | Some data =>
      match (im ← Image_open lib data;
             layers ← encode_layers im quality down;
             Ok (im, layers)) with
      | Raise e => (fs, Raise e)
      | Ok (im, (base_bytes, compressed_payload)) =>
          let '(orig_w, orig_h) := im_size im in
          let out_path := out_path_of path in
          match write_container out_path orig_w orig_h down quality
                                base_bytes compressed_payload fs with
          | (fs, Raise e) => (fs, Raise e)
          | (fs, Ok _) =>
              (fs,
               original ← file_len fs path;
               out ← file_len fs out_path;
               Ok (out_path,
                   {| original_bytes := original;
                      base_bytes := Z.of_nat (length base_bytes);
                      payload_bytes := Z.of_nat (length compressed_payload);
                      out_bytes := out;
                      enc_w := orig_w; enc_h := orig_h;
                      enc_down := down; enc_quality := quality |}))
          end
      end
  end.

(** [recon_padded[i:i+8, j:j+8] = blk] on a buffer of shape (R, C): the
    slice stops at the edge of the buffer, and an 8x8 block does not
    broadcast into a smaller slice ([ValueError]). *)
Definition write_block (R C : nat) (recon_padded : list (list float32))
    (i j : nat) (blk : list (list float32)) : result (list (list float32)) :=
  if decide (i + 8 <= R /\ j + 8 <= C)%nat then
    Ok (imap (fun r row =>
                if decide (i <= r < i + 8)%nat
                then take j row ++ take 8 (default [] (blk !! (r - i)%nat)) ++ drop (j + 8) row
                else row) recon_padded)
  else Raise ValueError.

(** The body of the block loop of [rebuild_channel]; the state is
    [(recon_padded, idx)]. *)
Definition rebuild_block (Q : list (list ifloat)) (R C : nat)
    (coef_array : list (list Z))
    (st : list (list float32) * nat) (ij : nat * nat)
  : result (list (list float32) * nat) :=
  let '(recon_padded, idx) := st in
  let '(i, j) := ij in
  flat ← match coef_array !! idx with
          | Some row => Ok row
          | None => Raise IndexError
          end;
  let idx := S idx in
  q ← put_idx (replicate 64 f32_zero) _ZIGZAG_POS (map f32_of_Z flat);
  let q := reshape_rows 8 8 q in
  let d := zip_with (zip_with (fun x c => f32_mul x (f32_of_ifloat c))) q Q in
  let blk := _idct2 d in
  recon_padded ← write_block R C recon_padded i j blk;
  Ok (recon_padded, idx).

(** [rebuild_channel] of [decompress_file], with the variables it closes
    over as arguments. *)
Definition rebuild_channel (Q : list (list ifloat)) (w h block_size : Z)
    (blocks_per_row blocks_per_col : Z) (coef_array : list (list Z))
  : result (list (list float32)) :=
  let R := Z.to_nat (blocks_per_col * block_size) in
  let C := Z.to_nat (blocks_per_row * block_size) in
  let recon_padded := replicate R (replicate C f32_zero) in
  let bs := Z.to_nat block_size in
  let coords := (i ← py_range0 R bs; j ← py_range0 C bs; [(i, j)]) in
  '(recon_padded, _) ← result_foldl (rebuild_block Q R C coef_array)
                                    (recon_padded, O) coords;
  Ok (_unblockify recon_padded h w).

(** One sample of
    [np.clip(np.round(up_arr + residual), 0, 255).astype(np.uint8)] *)
Definition recon_sample (up rec : float32) : Z :=
  astype_uint8 (np_clip 0 255 (np_round (f32_add up rec))).

(** [decompress_file] up to the reconstructed array [recon], together with
    the parsed header.  As in the encoder, the sum [up_arr + np.stack(...)]
    needs [up_arr] of shape (h, w, 3). *)
Definition reconstruct (fobj : fileobj) : result (Header * list (list pixel)) :=
  '(header, fobj) ← _unpack_header fobj;
  let w := h_w header in
  let h := h_h header in
  let block_size := h_block_size header in
  let quality := h_quality header in
  let base_len := h_base_len header in
  '(base_bytes, fobj) ← f_read_int base_len fobj;
  let '(payload_len_bytes, fobj) := f_read 8 fobj in
  payload_len ← unpack_Q payload_len_bytes;
  '(payload, fobj) ← f_read_int payload_len fobj;
  arr_bytes ← zlib_decompress lib payload;
  '(coef_r, coef_g, coef_b) ← np_load lib arr_bytes;
  Q ← quant_matrix quality;
  _ ← (if decide (block_size = 0) then Raise ZeroDivisionError else Ok ());
  let blocks_per_row := (w + block_size - 1) / block_size in
  let blocks_per_col := (h + block_size - 1) / block_size in
  rec_r ← rebuild_channel Q w h block_size blocks_per_row blocks_per_col coef_r;
  rec_g ← rebuild_channel Q w h block_size blocks_per_row blocks_per_col coef_g;
  rec_b ← rebuild_channel Q w h block_size blocks_per_row blocks_per_col coef_b;
  base_img ← Image_open lib base_bytes;
  up_base ← Image_resize_BICUBIC lib base_img (w, h);
  _ ← (if decide (im_size up_base = (w, h)) then Ok () else Raise ValueError);
  let up_arr := asarray_f32 up_base in
  let recon :=
    zip_with (zip_with (fun '(u1, u2, u3) '(r1, r2, r3) =>
                (recon_sample u1 r1, recon_sample u2 r2, recon_sample u3 r3)))
             up_arr (stack3 rec_r rec_g rec_b) in
  Ok (header, recon).

(** [decompress_file(fobj)]: the PNG bytes of the reconstruction and the
    statistics. *)
Definition decompress_file (fobj : fileobj) : result (list byte * DecStats) :=
  '(header, recon) ← reconstruct fobj;
  let out_img := {| im_size := (h_w header, h_h header); im_px := recon |} in
  png_bytes ← Image_save_PNG lib out_img;
  Ok (png_bytes,
      {| dec_w := h_w header; dec_h := h_h header;
         dec_down := h_down header; dec_quality := h_quality header;
         recon_bytes := Z.of_nat (length png_bytes) |}).

End Codec.

(** ** A small instance of the libraries

    The properties below hold for every [Libs].  To run the codec on
    concrete inputs, the examples use this instance: an uncompressed raster
    format in place of PNG, nearest-neighbour resampling, identity
    transforms in place of the DCT and of deflate, and a plain big-endian
    dump in place of the array archive. *)

Module Toy.

Definition save (im : image) : result (list byte) :=
  let '(w, h) := im_size im in
  bw ← pack_field 2 w;
  bh ← pack_field 2 h;
  Ok (bw ++ bh ++ concat (map (fun '(r, g, b) => [byte_of_Z r; byte_of_Z g; byte_of_Z b])
                              (concat (im_px im)))).

Definition open (data : list byte) : result image :=
  let w := be_value (take 2 data) in
  let h := be_value (take 2 (drop 2 data)) in
  let body := drop 4 data in
  if decide ((4 <= length data)%nat /\ length body = Z.to_nat (w * h * 3) /\ 0 < w /\ 0 < h)
  then
    let px := map (fun p => match p with
                            | [r; g; b] => (Z_of_byte r, Z_of_byte g, Z_of_byte b)
                            | _ => (0, 0, 0)
                            end)
                  (reshape_rows (Z.to_nat (w * h)) 3 body) in
    Ok {| im_size := (w, h);
          im_px := reshape_rows (Z.to_nat h) (Z.to_nat w) px |}
  else Raise ExternalError.

Definition resize (im : image) (size : Z * Z) : result image :=
  let '(nw, nh) := size in
  let '(ow, oh) := im_size im in
  if decide (0 < nw /\ 0 < nh) then
    Ok {| im_size := size;
          im_px :=
            map (fun y =>
                   map (fun x =>
                          default (0, 0, 0)
                            (row ← im_px im !! Z.to_nat (Z.of_nat y * oh / nh);
                             row !! Z.to_nat (Z.of_nat x * ow / nw)))
                       (seq 0 (Z.to_nat nw)))
                (seq 0 (Z.to_nat nh)) |}
  else Raise ValueError.

Definition dump_array (a : list (list Z)) : list byte :=
  be_bytes 4 (Z.of_nat (length a))
  ++ concat (map (fun row => concat (map (fun z => be_bytes 2 (z mod 65536)) row)) a).

Definition parse_array (data : list byte) : list (list Z) * list byte :=
  let n := Z.to_nat (be_value (take 4 data)) in
  let body := drop 4 data in
  (map (fun row => map (fun c => wrap_signed 16 (be_value c)) (reshape_rows 64 2 row))
       (reshape_rows n 128 (take (n * 128) body)),
   drop (n * 128) body).

Definition savez (r g b : list (list Z)) : list byte :=
  dump_array r ++ dump_array g ++ dump_array b.

Definition load (data : list byte)
  : result (list (list Z) * list (list Z) * list (list Z)) :=
  let '(r, data) := parse_array data in
  let '(g, data) := parse_array data in
  let '(b, data) := parse_array data in
  match data with
  | [] => Ok (r, g, b)
  | _ => Raise ExternalError
  end.

Definition libs : Libs :=
  {| Image_open := open;
     Image_resize_LANCZOS := resize;
     Image_resize_BICUBIC := resize;
     Image_save_PNG := save;
     dct := fun a => a;
     idct := fun a => a;
     np_savez_compressed := savez;
     np_load := load;
     zlib_compress := fun data => data;
     zlib_decompress := fun data => Ok data |}.

(** A 2x2 image file and a file system that holds it. *)
Definition img_2x2 : list byte :=
  map byte_of_Z [0; 2; 0; 2;  10; 20; 30;  40; 50; 60;  70; 80; 90;  200; 210; 220].

Definition fs_2x2 : gmap string (list byte) := {[ "in.png"%string := img_2x2 ]}.

(** The container that [compress_image] writes for it at quality 50 and
    down 2. *)
Definition container_2x2 : list byte :=
  Eval vm_compute in
    default [] ((compress_image libs "in.png" 50 2 fs_2x2).1 !! "in_mc2.mcmp2"%string).

(** A uniformly grey 256x256 image file. *)
Definition img_256 : list byte :=
  map byte_of_Z [1; 0; 1; 0] ++ replicate (256 * 256 * 3) (byte_of_Z 7).

Definition fs_256 : gmap string (list byte) := {[ "in.png"%string := img_256 ]}.

End Toy.

(** ** Notions used to state the properties *)

(** [a[i][j]] *)
Definition cell_at {A} (a : list (list A)) (i j : nat) : option A :=
  row ← a !! i; row !! j.

(** An array of shape (8, 8). *)
Definition is_8x8 {A} (a : list (list A)) : Prop :=
  length a = 8%nat /\ Forall (fun row => length row = 8%nat) a.

(** The specification's [Q50[i,j] * scale] in exact arithmetic, as a
    fraction (numerator, denominator): [scale = 50 / q] below 50 and
    [scale = 2 - q / 50 = (100 - q) / 50] from 50 on. *)
Definition exact_scaled (quality c : Z) : Z * Z :=
  if quality <? 50 then (c * 50, quality) else (c * (100 - quality), 50).

(** [n] is an integer nearest to the fraction: at most one half away. *)
Definition is_nearest_integer (n : Z) (frac : Z * Z) : Prop :=
  2 * Z.abs (n * frac.2 - frac.1) <= frac.2.

(** The specification's rounding of its design notes: to the nearest
    integer, an exact half going away from zero. *)
Definition round_half_away (frac : Z * Z) : Z :=
  let '(num, den) := frac in
  if 0 <=? num then (2 * num + den) / (2 * den)
  else - ((2 * (- num) + den) / (2 * den)).

(** The float [x] is exactly [k + 1/2]. *)
Definition is_half_integer (x : spec_float) (k : Z) : Prop :=
  match x with
  | S754_finite s m e => e < 0 /\ 2 * cond_Zopp s (Zpos m) = (2 * k + 1) * 2 ^ (- e)
  | _ => False
  end.

(** The even one of [k] and [k + 1]. *)
Definition even_neighbour (k : Z) : Z := if Z.even k then k else k + 1.

(** The check of one cell of [quant_matrix quality] against the exact
    fraction, and of all cells of all matrices; run by [vm_compute]. *)
Definition check_quant_cell (quality : Z) (scale : float32) (Q : list (list ifloat))
    (i j : nat) : bool :=
  match cell_at _Q50 i j, cell_at Q i j with
  | Some c, Some (IFin z) =>
      match scaled_cell scale c with
      | IFin n =>
          (z =? Z.min (Z.max n 1) 255)
          && (2 * Z.abs (n * (exact_scaled quality c).2 - (exact_scaled quality c).1)
              <=? (exact_scaled quality c).2)
          && (1 <=? z) && (z <=? 255)
      | _ => false
      end
  | _, _ => false
  end.

Definition check_quality (quality : Z) : bool :=
  match quant_scale quality, quant_matrix quality with
  | Ok s, Ok Q =>
      forallb (fun i => forallb (check_quant_cell quality (f32_of_f64 s) Q i) (seq 0 8))
              (seq 0 8)
  | _, _ => false
  end.

(** An index table that is a permutation of the positions of a vector. *)
Definition is_permutation_of (n : nat) (idx : list nat) : Prop :=
  length idx = n /\ NoDup idx /\ Forall (fun i => (i < n)%nat) idx.


(** A header with another [down], with another [channels]. *)
Definition with_down (hdr : Header) (d : Z) : Header :=
  mkHeader (h_w hdr) (h_h hdr) (h_channels hdr) (h_block_size hdr) d
           (h_quality hdr) (h_base_len hdr).

Definition with_channels (hdr : Header) (c : Z) : Header :=
  mkHeader (h_w hdr) (h_h hdr) c (h_block_size hdr) (h_down hdr)
           (h_quality hdr) (h_base_len hdr).

(** The checks of [quant_matrix] over the qualities that fit the header
    byte, run by [vm_compute]: shape and range of the cells, the all-ones
    matrix from 100 on, the error at 0; and cell by cell, that the step
    from [quality] to [quality + 1] does not increase a cell. *)
Definition check_quality_byte (quality : Z) : bool :=
  match quant_matrix quality with
  | Ok Q =>
      negb (quality =? 0)
      && forallb (fun i => forallb (fun j =>
           match cell_at Q i j with
           | Some (IFin z) =>
               (1 <=? z) && (z <=? 255) && ((quality <? 100) || (z =? 1))
           | _ => false
           end) (seq 0 8)) (seq 0 8)
      && bool_decide (shape2 Q = (8, 8)%nat)
  | Raise ZeroDivisionError => quality =? 0
  | Raise _ => false
  end.

Definition check_quality_step (quality : Z) : bool :=
  match quant_matrix quality, quant_matrix (quality + 1) with
  | Ok Q, Ok Q' =>
      forallb (fun i => forallb (fun j =>
        match cell_at Q i j, cell_at Q' i j with
        | Some (IFin z), Some (IFin z') => z' <=? z
        | _, _ => false
        end) (seq 0 8)) (seq 0 8)
  | _, _ => false
  end.

(** Whether a path holds a dot, the separator of [rsplit]. *)
Fixpoint has_dot (s : string) : bool :=
  match s with
  | EmptyString => false
  | String c s' => bool_decide (c = "."%char) || has_dot s'
  end.

(** A coefficient array of shape (n, 64). *)
Definition rows_of_64 (coef_array : list (list Z)) : Prop :=
  Forall (fun row => length row = 64%nat) coef_array.








(* ================================================================== *)
(** * Part II: properties *)
(* ================================================================== *)

(** ** Bytes and big-endian fields *)

Lemma Z_of_byte_range b : 0 <= Z_of_byte b < 256.
Proof.
  unfold Z_of_byte. pose proof (Byte.to_N_bounded b). lia.
Qed.

Lemma Z_of_byte_of_Z z : Z_of_byte (byte_of_Z z) = z mod 256.
Proof.
  unfold byte_of_Z, Z_of_byte.
  assert (Hr : 0 <= z mod 256 < 256) by (apply Z.mod_pos_bound; lia).
  destruct (Byte.of_N (Z.to_N (z mod 256))) as [b|] eqn:E.
  - apply Byte.to_of_N in E. rewrite E. lia.
  - apply Byte.of_N_None_iff in E. lia.
Qed.

Lemma length_be_bytes n v : length (be_bytes n v) = n.
Proof.
  revert v. induction n as [|n IH]; intros v; simpl; [done|].
  rewrite length_app, IH. simpl. lia.
Qed.

Lemma be_value_snoc bs b : be_value (bs ++ [b]) = be_value bs * 256 + Z_of_byte b.
Proof. unfold be_value. by rewrite fold_left_app. Qed.

Lemma be_value_range bs : 0 <= be_value bs < 256 ^ Z.of_nat (length bs).
Proof.
  induction bs as [|b bs IH] using rev_ind; [by compute|].
  rewrite be_value_snoc, length_app. simpl.
  replace (Z.of_nat (length bs + 1)) with (Z.of_nat (length bs) + 1) by lia.
  rewrite Z.pow_add_r by lia.
  pose proof (Z_of_byte_range b). nia.
Qed.

(** Reading back what [be_bytes] wrote gives the number written. *)
Lemma be_value_be_bytes n v :
  0 <= v < 256 ^ Z.of_nat n -> be_value (be_bytes n v) = v.
Proof.
  revert v. induction n as [|n IH]; intros v Hv.
  - simpl in *. compute. lia.
  - simpl be_bytes. rewrite be_value_snoc, Z_of_byte_of_Z.
    replace (Z.of_nat (S n)) with (Z.of_nat n + 1) in Hv by lia.
    rewrite Z.pow_add_r in Hv by lia.
    rewrite IH.
    + pose proof (Z.div_mod v 256). lia.
    + split; [apply Z.div_pos; lia|].
      apply Z.div_lt_upper_bound; lia.
Qed.

Lemma pack_field_Ok size v bs :
  pack_field size v = Ok bs <->
  0 <= v < 256 ^ Z.of_nat size /\ bs = be_bytes size v.
Proof.
  unfold pack_field.
  destruct (0 <=? v) eqn:E1; destruct (v <? 256 ^ Z.of_nat size) eqn:E2; simpl;
    split; try (intros [=]; subst); try (intros [? ->]); try done;
    try (split; [lia|done]); lia.
Qed.

Lemma pack_field_in_range size v :
  0 <= v < 256 ^ Z.of_nat size -> pack_field size v = Ok (be_bytes size v).
Proof. intros. by apply pack_field_Ok. Qed.

Lemma pack_field_out_of_range size v :
  256 ^ Z.of_nat size <= v -> pack_field size v = Raise StructError.
Proof.
  intros. unfold pack_field.
  destruct (v <? 256 ^ Z.of_nat size) eqn:E; [lia|].
  by rewrite andb_false_r.
Qed.

(** ** The header *)

(** What [_pack_header] returns when it returns. *)
Lemma pack_header_Ok w h channels block_size down quality base_len hdr :
  _pack_header w h channels block_size down quality base_len = Ok hdr ->
  (0 <= w < 2 ^ 32 /\ 0 <= h < 2 ^ 32 /\ 0 <= channels < 256 /\
   0 <= block_size < 256 /\ 0 <= down < 256 /\ 0 <= quality < 256 /\
   0 <= base_len < 2 ^ 64) /\
  hdr = MAGIC ++ be_bytes 4 w ++ be_bytes 4 h ++ be_bytes 1 channels
        ++ be_bytes 1 block_size ++ be_bytes 1 down ++ be_bytes 1 quality
        ++ be_bytes 8 base_len.
Proof.
  unfold _pack_header. intros H.
  repeat match type of H with
         | context [pack_field ?n ?v] =>
             let E := fresh "E" in
             destruct (pack_field n v) eqn:E; simpl in H; [|discriminate];
             apply pack_field_Ok in E; destruct E as [? ->]
         end.
  injection H as <-. split; [|done].
  change (256 ^ Z.of_nat 4) with (2 ^ 32) in *.
  change (256 ^ Z.of_nat 1) with 256 in *.
  change (256 ^ Z.of_nat 8) with (2 ^ 64) in *.
  lia.
Qed.

Lemma pack_header_in_range w h channels block_size down quality base_len :
  0 <= w < 2 ^ 32 -> 0 <= h < 2 ^ 32 -> 0 <= channels < 256 ->
  0 <= block_size < 256 -> 0 <= down < 256 -> 0 <= quality < 256 ->
  0 <= base_len < 2 ^ 64 ->
  _pack_header w h channels block_size down quality base_len
  = Ok (MAGIC ++ be_bytes 4 w ++ be_bytes 4 h ++ be_bytes 1 channels
        ++ be_bytes 1 block_size ++ be_bytes 1 down ++ be_bytes 1 quality
        ++ be_bytes 8 base_len).
Proof.
  intros. unfold _pack_header.
  rewrite !pack_field_in_range; [done | done..].
Qed.

Lemma pack_field_cases size v :
  (exists bs, pack_field size v = Ok bs) \/ pack_field size v = Raise StructError.
Proof. unfold pack_field. destruct (_ && _); eauto. Qed.

Lemma pack_header_down_too_large w h channels block_size down quality base_len :
  256 <= down ->
  _pack_header w h channels block_size down quality base_len = Raise StructError.
Proof.
  intros Hd. unfold _pack_header.
  rewrite (pack_field_out_of_range 1 down) by exact Hd.
  destruct (pack_field_cases 4 w) as [[? ->]| ->]; [simpl|done].
  destruct (pack_field_cases 4 h) as [[? ->]| ->]; [simpl|done].
  destruct (pack_field_cases 1 channels) as [[? ->]| ->]; [simpl|done].
  destruct (pack_field_cases 1 block_size) as [[? ->]| ->]; [simpl|done].
  done.
Qed.

Lemma unpack_fields_be w h channels block_size down quality base_len :
  0 <= w < 2 ^ 32 -> 0 <= h < 2 ^ 32 -> 0 <= channels < 256 ->
  0 <= block_size < 256 -> 0 <= down < 256 -> 0 <= quality < 256 ->
  0 <= base_len < 2 ^ 64 ->
  unpack_fields (be_bytes 4 w ++ be_bytes 4 h ++ be_bytes 1 channels
                 ++ be_bytes 1 block_size ++ be_bytes 1 down
                 ++ be_bytes 1 quality ++ be_bytes 8 base_len)
  = Ok (mkHeader w h channels block_size down quality base_len).
Proof.
  intros Hw Hh Hc Hb Hd Hq Hl. unfold unpack_fields.
  rewrite decide_True by (rewrite !length_app, !length_be_bytes; done).
  pose proof (be_value_be_bytes 4 w Hw) as Ew.
  pose proof (be_value_be_bytes 4 h Hh) as Eh.
  pose proof (be_value_be_bytes 1 channels Hc) as Ec.
  pose proof (be_value_be_bytes 1 block_size Hb) as Eb.
  pose proof (be_value_be_bytes 1 down Hd) as Ed.
  pose proof (be_value_be_bytes 1 quality Hq) as Eq.
  pose proof (be_value_be_bytes 8 base_len Hl) as El.
  cbn [be_bytes app take drop firstn skipn] in *.
  by rewrite Ew, Eh, Ec, Eb, Ed, Eq, El.
Qed.

(** Parsing a packed header gives back the seven numbers and leaves the
    file object right after the 25 bytes. *)
Lemma unpack_pack_header w h channels block_size down quality base_len hdr rest :
  _pack_header w h channels block_size down quality base_len = Ok hdr ->
  length hdr = 25%nat /\
  _unpack_header (hdr ++ rest)
  = Ok (mkHeader w h channels block_size down quality base_len, rest).
Proof.
  intros H. apply pack_header_Ok in H as [(Hw & Hh & Hc & Hb & Hd & Hq & Hl) ->].
  split; [rewrite !length_app, !length_be_bytes; done|].
  unfold _unpack_header, f_read.
  rewrite <- app_assoc, take_app_length, drop_app_length.
  rewrite decide_True by done.
  set (fields := be_bytes 4 w ++ _).
  assert (Hlen : length fields = header_fields_size)
    by (unfold fields; rewrite !length_app, !length_be_bytes; done).
  replace ((be_bytes 4 w ++ be_bytes 4 h ++ be_bytes 1 channels
            ++ be_bytes 1 block_size ++ be_bytes 1 down ++ be_bytes 1 quality
            ++ be_bytes 8 base_len) ++ rest) with (fields ++ rest) by done.
  rewrite <- Hlen, take_app_length, drop_app_length.
  unfold fields. by rewrite unpack_fields_be.
Qed.

(** [be_bytes] puts the most significant byte first: byte [k] of [n] holds
    the base-256 digit of weight [256 ^ (n - 1 - k)]. *)
Lemma be_bytes_msb_first n v k :
  (k < n)%nat ->
  be_bytes n v !! k = Some (byte_of_Z (v / 256 ^ Z.of_nat (n - 1 - k))).
Proof.
  revert v k. induction n as [|n IH]; intros v k Hk; [lia|].
  simpl be_bytes. destruct (decide (k = n)) as [->|Hne].
  - rewrite lookup_app_r by (rewrite length_be_bytes; lia).
    rewrite length_be_bytes. replace (n - n)%nat with O by lia.
    replace (S n - 1 - n)%nat with O by lia. simpl. by rewrite Z.div_1_r.
  - rewrite lookup_app_l by (rewrite length_be_bytes; lia).
    rewrite IH by lia. do 2 f_equal.
    replace (Z.of_nat (S n - 1 - k)) with (Z.of_nat (n - 1 - k) + 1) by lia.
    rewrite Z.pow_add_r by lia.
    rewrite Z.div_div by lia. f_equal. lia.
Qed.

(** ** [compress_image] and the file system *)

Section CompressImage.

Context (lib : Libs).

Lemma write_container_Ok out_path w h down quality base payload fs fs' :
  write_container out_path w h down quality base payload fs = (fs', Ok ()) ->
  exists header plen,
    _pack_header w h 3 8 down quality (Z.of_nat (length base)) = Ok header /\
    pack_field 8 (Z.of_nat (length payload)) = Ok plen /\
    fs' = <[out_path := header ++ base ++ plen ++ payload]> fs.
Proof.
  unfold write_container.
  destruct (_pack_header _ _ _ _ _ _ _) as [header|] eqn:Eh; [|intros [=]].
  destruct (pack_field 8 _) as [plen|] eqn:Ep; intros [= <-].
  exists header, plen. by rewrite !insert_insert_eq.
Qed.

Lemma write_container_success out_path w h down quality base payload fs header plen :
  _pack_header w h 3 8 down quality (Z.of_nat (length base)) = Ok header ->
  pack_field 8 (Z.of_nat (length payload)) = Ok plen ->
  write_container out_path w h down quality base payload fs
  = (<[out_path := header ++ base ++ plen ++ payload]> fs, Ok ()).
Proof.
  intros Eh Ep. unfold write_container. rewrite Eh, Ep.
  by rewrite !insert_insert_eq.
Qed.

(** Everything that a successful [compress_image] has done. *)
Lemma compress_image_Ok path quality down fs fs' out_path stats :
  compress_image lib path quality down fs = (fs', Ok (out_path, stats)) ->
  exists data im base payload header plen,
    fs !! path = Some data /\
    Image_open lib data = Ok im /\
    encode_layers lib im quality down = Ok (base, payload) /\
    _pack_header (im_size im).1 (im_size im).2 3 8 down quality
                 (Z.of_nat (length base)) = Ok header /\
    pack_field 8 (Z.of_nat (length payload)) = Ok plen /\
    out_path = out_path_of path /\
    fs' = <[out_path := header ++ base ++ plen ++ payload]> fs /\
    base_bytes stats = Z.of_nat (length base) /\
    payload_bytes stats = Z.of_nat (length payload) /\
    out_bytes stats = Z.of_nat (length (header ++ base ++ plen ++ payload)) /\
    enc_w stats = (im_size im).1 /\ enc_h stats = (im_size im).2 /\
    enc_down stats = down /\ enc_quality stats = quality.
Proof.
  unfold compress_image.
  destruct (fs !! path) as [data|] eqn:Efs; [|intros [=]].
  destruct (Image_open lib data) as [im|] eqn:Eim; simpl; [|intros [=]].
  destruct (encode_layers lib im quality down) as [[base payload]|] eqn:El;
    simpl; [|intros [=]].
  destruct (im_size im) as [orig_w orig_h] eqn:Esz.
  destruct (write_container _ _ _ _ _ _ _ _) as [fs1 [[]|]] eqn:Ew; [|intros [=]].
  apply write_container_Ok in Ew as (header & plen & Eh & Ep & ->).
  unfold file_len. rewrite lookup_insert_eq.
  destruct (<[_:=_]> fs !! path) eqn:Ep'; simpl; intros ?; simplify_eq.
  exists data, im, base, payload, header, plen. simpl. rewrite Esz.
  repeat split; done.
Qed.

(** When the image opens, the layers are computed and every header field
    fits, [compress_image] returns and leaves the container in [out_path]. *)
Lemma compress_image_success path quality down fs data im base payload header plen :
  fs !! path = Some data ->
  Image_open lib data = Ok im ->
  encode_layers lib im quality down = Ok (base, payload) ->
  _pack_header (im_size im).1 (im_size im).2 3 8 down quality
               (Z.of_nat (length base)) = Ok header ->
  pack_field 8 (Z.of_nat (length payload)) = Ok plen ->
  exists stats,
    compress_image lib path quality down fs
    = (<[out_path_of path := header ++ base ++ plen ++ payload]> fs,
       Ok (out_path_of path, stats)).
Proof.
  intros Efs Eim El Eh Ep. unfold compress_image.
  rewrite Efs, Eim. simpl. rewrite El. simpl.
  destruct (im_size im) as [orig_w orig_h]. simpl in Eh.
  rewrite (write_container_success _ _ _ _ _ _ _ _ _ _ Eh Ep).
  unfold file_len. rewrite lookup_insert_eq.
  destruct (decide (out_path_of path = path)) as [->|Hne].
  - rewrite lookup_insert_eq. simpl. eauto.
  - rewrite lookup_insert_ne, Efs by done. simpl. eauto.
Qed.

(** A [down] of 256 or more does not fit its byte of the header: the output
    file has been opened when [struct.pack] raises. *)
Lemma compress_image_down_too_large path quality down fs data im base payload :
  fs !! path = Some data ->
  Image_open lib data = Ok im ->
  encode_layers lib im quality down = Ok (base, payload) ->
  256 <= down ->
  compress_image lib path quality down fs
  = (<[out_path_of path := []]> fs, Raise StructError).
Proof.
  intros Efs Eim El Hd. unfold compress_image.
  rewrite Efs, Eim. simpl. rewrite El. simpl.
  destruct (im_size im) as [orig_w orig_h].
  unfold write_container. by rewrite pack_header_down_too_large.
Qed.

End CompressImage.

(** ** The container written by the encoder *)

Lemma lookup_skip {A} (l1 l2 : list A) n k :
  n = length l1 -> (l1 ++ l2) !! (n + k)%nat = l2 !! k.
Proof.
  intros ->. rewrite lookup_app_r by lia. f_equal. lia.
Qed.

Lemma pair_eq_inv {A B} (a a' : A) (b b' : B) :
  (a, b) = (a', b') -> a = a' /\ b = b'.
Proof. intros H. split; [exact (f_equal fst H) | exact (f_equal snd H)]. Qed.

(** The encoder on the 256x256 image with [down = 256], evaluated once. *)
Lemma run_256 :
  let r := compress_image Toy.libs "in.png" 50 256 Toy.fs_256 in
  (r.2, r.1 !! "in_mc2.mcmp2"%string, Toy.fs_256 !! "in_mc2.mcmp2"%string,
   im_size <$> Image_open Toy.libs Toy.img_256)
  = (Raise StructError, Some [], None, Ok (256, 256)).
Proof. vm_compute. reflexivity. Qed.

(** C1, amended.  For an input image of width [W] and height [H] with
    [1 <= W, H < 2^32], a quality in [1, 100] and a down-sampling factor in
    [1, 255] (each header field has to fit its fixed-width slot; the two
    segments are shorter than 2^64 bytes), whenever the image opens and the
    two layers are computed, [compress_image] returns and the container it
    leaves in [out_path] starts with the five bytes "MC2v1"; parsing its
    first 25 bytes gives back exactly [W], [H], channels = 3, block_size = 8,
    [down], [quality] and the length of the base layer, and stops right
    after them; the bytes of [width], [height] and [base_len] are stored
    most significant first. *)
Theorem header_round_trip (lib : Libs) path quality down fs data im base payload W H :
  fs !! path = Some data ->
  Image_open lib data = Ok im ->
  im_size im = (W, H) ->
  encode_layers lib im quality down = Ok (base, payload) ->
  1 <= W < 2 ^ 32 -> 1 <= H < 2 ^ 32 ->
  1 <= quality <= 100 -> 1 <= down <= 255 ->
  Z.of_nat (length base) < 2 ^ 64 -> Z.of_nat (length payload) < 2 ^ 64 ->
  exists container stats,
    compress_image lib path quality down fs
    = (<[out_path_of path := container]> fs, Ok (out_path_of path, stats)) /\
    take 5 container = list_byte_of_string "MC2v1" /\
    _unpack_header container
    = Ok (mkHeader W H 3 8 down quality (Z.of_nat (length base)),
          drop 25 container) /\
    (forall k, (k < 4)%nat ->
       container !! (5 + k)%nat = Some (byte_of_Z (W / 256 ^ Z.of_nat (3 - k))) /\
       container !! (9 + k)%nat = Some (byte_of_Z (H / 256 ^ Z.of_nat (3 - k)))) /\
    (forall k, (k < 8)%nat ->
       container !! (17 + k)%nat
       = Some (byte_of_Z (Z.of_nat (length base) / 256 ^ Z.of_nat (7 - k)))).
Proof.
  intros Efs Eim Esz El HW HH Hq Hd Hb Hp.
  assert (Eh := pack_header_in_range W H 3 8 down quality (Z.of_nat (length base))).
  specialize (Eh ltac:(lia) ltac:(lia) ltac:(lia) ltac:(lia) ltac:(lia)
                 ltac:(lia) ltac:(lia)).
  assert (Ep : pack_field 8 (Z.of_nat (length payload))
               = Ok (be_bytes 8 (Z.of_nat (length payload))))
    by (apply pack_field_in_range; change (256 ^ Z.of_nat 8) with (2 ^ 64); lia).
  edestruct (compress_image_success lib path quality down fs data im base payload)
    as [stats Hc]; [exact Efs | exact Eim | exact El | | exact Ep |].
  { rewrite Esz. exact Eh. }
  eexists _, stats. split; [exact Hc|].
  destruct (unpack_pack_header _ _ _ _ _ _ _ _
              (base ++ be_bytes 8 (Z.of_nat (length payload)) ++ payload) Eh)
    as [Hlen Hun].
  split; [|split; [|split]].
  - by rewrite <- !app_assoc.
  - rewrite Hun. by do 2 f_equal.
  - intros k Hk. rewrite <- !app_assoc. split.
    + rewrite (lookup_skip MAGIC _ 5 k) by done.
      rewrite lookup_app_l by (rewrite length_be_bytes; lia).
      rewrite be_bytes_msb_first by lia. repeat f_equal; lia.
    + replace (9 + k)%nat with (5 + (4 + k))%nat by lia.
      rewrite (lookup_skip MAGIC _ 5) by done.
      rewrite (lookup_skip (be_bytes 4 W) _ 4) by (by rewrite length_be_bytes).
      rewrite lookup_app_l by (rewrite length_be_bytes; lia).
      rewrite be_bytes_msb_first by lia. repeat f_equal; lia.
  - intros k Hk. rewrite <- !app_assoc.
    replace (17 + k)%nat with (5 + (4 + (4 + (1 + (1 + (1 + (1 + k)))))))%nat by lia.
    rewrite (lookup_skip MAGIC _ 5) by done.
    rewrite (lookup_skip (be_bytes 4 W) _ 4) by (by rewrite length_be_bytes).
    rewrite (lookup_skip (be_bytes 4 H) _ 4) by (by rewrite length_be_bytes).
    rewrite !(lookup_skip (be_bytes 1 _) _ 1) by (by rewrite length_be_bytes).
    rewrite lookup_app_l by (rewrite length_be_bytes; lia).
    rewrite be_bytes_msb_first by lia. repeat f_equal; lia.
Qed.

Lemma header_round_trip_witness :
  exists container stats,
    compress_image Toy.libs "in.png" 50 2 Toy.fs_2x2
    = (<["in_mc2.mcmp2"%string := container]> Toy.fs_2x2,
       Ok ("in_mc2.mcmp2"%string, stats)) /\
    take 5 container = list_byte_of_string "MC2v1" /\
    _unpack_header container = Ok (mkHeader 2 2 3 8 2 50 7, drop 25 container).
Proof.
  edestruct (header_round_trip Toy.libs "in.png" 50 2 Toy.fs_2x2 Toy.img_2x2)
    as (container & stats & Hc & Hm & Hu & _);
    [ reflexivity | vm_compute; reflexivity | reflexivity
    | vm_compute; reflexivity | lia | lia | lia | lia
    | vm_compute; reflexivity | vm_compute; reflexivity | ].
  exists container, stats. split; [exact Hc|]. split; [exact Hm|exact Hu].
Defined.

(** C1 as stated fails at [down = 256], a value the claim admits: a
    256x256 image opens and both layers are computed, but 256 does not fit
    the one-byte [down] field, [struct.pack] raises, and no container with a
    header is produced (the output file has been opened and is empty). *)
Lemma header_round_trip_fails_at_down_256 :
  (im_size <$> Image_open Toy.libs Toy.img_256) = Ok (256, 256) /\
  (compress_image Toy.libs "in.png" 50 256 Toy.fs_256).2 = Raise StructError /\
  (compress_image Toy.libs "in.png" 50 256 Toy.fs_256).1 !! "in_mc2.mcmp2"%string
  = Some [].
Proof.
  pose proof run_256 as H0. cbv zeta in H0.
  destruct (pair_eq_inv _ _ _ _ H0) as [H H4].
  destruct (pair_eq_inv _ _ _ _ H) as [H' _].
  destruct (pair_eq_inv _ _ _ _ H') as [H1 H2].
  split; [exact H4|]. split; [exact H1|exact H2].
Qed.

(** C2.  For every output of the encoder, the container has
    [25 + base_len + 8 + payload_len] bytes, where [base_len] is the field
    parsed from its header and [payload_len] is the value of the 8-byte
    big-endian field that follows the [base_len] bytes of the base layer.
    The two lengths are the ones reported in the statistics. *)
Theorem length_framing (lib : Libs) path quality down fs fs' out_path stats :
  compress_image lib path quality down fs = (fs', Ok (out_path, stats)) ->
  exists container hdr rest payload_len,
    fs' !! out_path = Some container /\
    _unpack_header container = Ok (hdr, rest) /\
    unpack_Q (take 8 (drop (Z.to_nat (h_base_len hdr)) rest)) = Ok payload_len /\
    Z.of_nat (length container) = 25 + h_base_len hdr + 8 + payload_len /\
    h_base_len hdr = base_bytes stats /\
    payload_len = payload_bytes stats /\
    out_bytes stats = Z.of_nat (length container).
Proof.
  intros Hc.
  apply compress_image_Ok in Hc
    as (data & im & base & payload & header & plen & Efs & Eim & El & Eh & Ep
        & -> & -> & Hb & Hp & Ho & _).
  apply pack_field_Ok in Ep as [Hrange ->].
  destruct (unpack_pack_header _ _ _ _ _ _ _ _
              (base ++ be_bytes 8 (Z.of_nat (length payload)) ++ payload) Eh)
    as [Hlen Hun].
  eexists _, _, _, (Z.of_nat (length payload)).
  split; [apply lookup_insert_eq|].
  split; [exact Hun|]. cbn [h_base_len].
  rewrite Nat2Z.id, drop_app_length.
  rewrite take_app_length' by (by rewrite length_be_bytes).
  split.
  { unfold unpack_Q. rewrite decide_True by apply length_be_bytes.
    by rewrite be_value_be_bytes. }
  split.
  { rewrite !length_app, Hlen, length_be_bytes. lia. }
  by rewrite Hb, Hp, Ho.
Qed.

Lemma length_framing_witness :
  exists container hdr rest payload_len,
    (<["in_mc2.mcmp2"%string := Toy.container_2x2]> Toy.fs_2x2)
      !! "in_mc2.mcmp2"%string = Some container /\
    _unpack_header container = Ok (hdr, rest) /\
    unpack_Q (take 8 (drop (Z.to_nat (h_base_len hdr)) rest)) = Ok payload_len /\
    Z.of_nat (length container) = 25 + h_base_len hdr + 8 + payload_len /\
    h_base_len hdr = 7 /\
    payload_len = 396 /\
    436 = Z.of_nat (length container).
Proof.
  apply (length_framing Toy.libs "in.png" 50 2 Toy.fs_2x2
           (<["in_mc2.mcmp2"%string := Toy.container_2x2]> Toy.fs_2x2)
           "in_mc2.mcmp2"
           (mkEncStats 16 7 396 436 2 2 2 50)).
  vm_compute. reflexivity.
Defined.

(** ** The zig-zag tables *)

Lemma take_idx_Ok {A} (v : list A) (idx : list nat) :
  Forall (fun i => (i < length v)%nat) idx ->
  exists g, take_idx v idx = Ok g /\ length g = length idx /\
            Forall (fun x => x ∈ v) g.
Proof.
  unfold take_idx. induction 1 as [|i idx Hi _ IH]; simpl.
  - exists []. by repeat split.
  - destruct IH as (g & -> & Hlen & Hin).
    destruct (lookup_lt_is_Some_2 v i Hi) as [x Hx]. rewrite Hx. simpl.
    exists (x :: g). split; [done|]. split; [simpl; lia|].
    constructor; [|done]. by eapply list_elem_of_lookup_2.
Qed.

Lemma ZIGZAG_POS_range : Forall (fun i => (i < 64)%nat) _ZIGZAG_POS.
Proof. apply Forall_forall. intros i Hi. vm_compute in Hi.
  repeat (apply elem_of_cons in Hi as [->|Hi]; [lia|]). by apply elem_of_nil in Hi.
Qed.

Section GatherScatter.

Context {A : Type}.
Implicit Types (v q g : list A) (idx : list nat).

Lemma take_idx_spec v idx g :
  take_idx v idx = Ok g <->
  length g = length idx /\
  forall k i, idx !! k = Some i -> g !! k = v !! i /\ is_Some (v !! i).
Proof.
  unfold take_idx. revert g. induction idx as [|i idx IH]; intros g; simpl.
  - split.
    + intros [= <-]. split; [done|]. intros k i Hk. by destruct k.
    + intros [Hl _]. by destruct g.
  - destruct (v !! i) as [x|] eqn:Hx; simpl.
    + destruct (result_mapM _ idx) as [g'|e] eqn:Hg; simpl.
      * split.
        -- intros [= <-]. destruct (proj1 (IH g') eq_refl) as [Hl Hk].
           split; [simpl; lia|]. intros [|k] j Hj; simpl in *.
           ++ injection Hj as <-. by rewrite Hx.
           ++ by apply Hk.
        -- intros [Hl Hk]. destruct g as [|y g]; [done|].
           f_equal. f_equal.
           ++ destruct (Hk O i eq_refl) as [Hy _]. simpl in Hy. congruence.
           ++ assert (Ok g' = Ok g) as [= ->]; [|done].
              apply IH. split; [simpl in Hl; lia|].
              intros k j Hj. apply (Hk (S k) j Hj).
      * split; [done|]. intros [Hl Hk]. destruct g as [|y g]; [done|].
        assert (Raise e = Ok g) as [=].
        apply IH. split; [simpl in Hl; lia|].
        intros k j Hj. apply (Hk (S k) j Hj).
    + split; [done|]. intros [_ Hk].
      destruct (Hk O i eq_refl) as [_ [? ?]]. congruence.
Qed.

Lemma put_pairs_spec (pairs : list (nat * A)) q :
  Forall (fun p => (p.1 < length q)%nat) pairs ->
  NoDup pairs.*1 ->
  exists q', put_pairs q pairs = Ok q' /\ length q' = length q /\
    (forall k i x, pairs !! k = Some (i, x) -> q' !! i = Some x) /\
    (forall j, j ∉ pairs.*1 -> q' !! j = q !! j).
Proof.
  revert q. induction pairs as [|[i x] pairs IH]; intros q Hr Hnd.
  - exists q. split; [done|]. split; [done|].
    split; [intros k i x Hk; by destruct k|done].
  - inversion Hr as [|? ? Hi Hr']; subst. simpl in Hi.
    apply NoDup_cons in Hnd as [Hni Hnd].
    destruct (IH (<[i := x]> q)) as (q' & Hq' & Hl & Hin & Hout).
    { eapply Forall_impl; [exact Hr'|]. intros p Hp. by rewrite length_insert. }
    { exact Hnd. }
    exists q'. simpl. rewrite decide_True by done.
    split; [exact Hq'|]. split; [by rewrite Hl, length_insert|]. split.
    + intros [|k] j y Hk; simpl in Hk.
      * injection Hk as <- <-. rewrite (Hout i Hni).
        by apply list_lookup_insert_eq.
      * by eapply Hin.
    + intros j Hj. apply not_elem_of_cons in Hj as [Hji Hj].
      rewrite (Hout j Hj). by apply list_lookup_insert_ne.
Qed.


Lemma is_permutation_of_surj n idx j :
  is_permutation_of n idx -> (j < n)%nat -> exists k, idx !! k = Some j.
Proof.
  intros (Hl & Hnd & Hr) Hj.
  assert (Hp : idx ≡ₚ seq 0 n).
  { apply submseteq_length_Permutation.
    - apply NoDup_submseteq; [done|]. intros i Hi.
      rewrite Forall_forall in Hr. apply elem_of_seq. specialize (Hr i Hi). lia.
    - rewrite length_seq. lia. }
  apply list_elem_of_lookup. rewrite Hp. apply elem_of_seq. lia.
Qed.

Lemma put_idx_same_length q idx flat :
  length flat = length idx -> put_idx q idx flat = put_pairs q (zip idx flat).
Proof. intros H. unfold put_idx. by rewrite decide_True. Qed.

(** Gather then scatter, and scatter then gather, through a permutation. *)
Lemma gather_scatter n idx v q :
  is_permutation_of n idx -> length v = n -> length q = n ->
  exists g, take_idx v idx = Ok g /\ put_idx q idx g = Ok v.
Proof.
  intros Hperm Hv Hq. pose proof Hperm as (Hl & Hnd & Hr).
  destruct (take_idx_Ok v idx) as (g & Hg & Hlg & _); [by rewrite Hv|].
  exists g. split; [exact Hg|].
  apply take_idx_spec in Hg as [_ Hgk].
  rewrite put_idx_same_length by done.
  destruct (put_pairs_spec (zip idx g) q) as (q' & Hq' & Hlq & Hin & _).
  { apply Forall_forall. intros [i x] Hix. simpl.
    apply elem_of_zip_l in Hix. rewrite Forall_forall in Hr.
    rewrite Hq. by apply Hr. }
  { rewrite fst_zip by lia. exact Hnd. }
  rewrite Hq'. f_equal. apply list_eq. intros j.
  destruct (decide (j < n)%nat) as [Hj|Hj].
  - destruct (is_permutation_of_surj n idx j Hperm Hj) as [k Hk].
    destruct (Hgk k j Hk) as [Hgv [x Hx]].
    rewrite Hx. apply (Hin k). rewrite lookup_zip_with, Hk. simpl.
    rewrite Hgv, Hx. done.
  - rewrite !lookup_ge_None_2; [done|lia|lia].
Qed.

Lemma scatter_gather n idx v q :
  is_permutation_of n idx -> length v = n -> length q = n ->
  exists s, put_idx q idx v = Ok s /\ take_idx s idx = Ok v.
Proof.
  intros Hperm Hv Hq. pose proof Hperm as (Hl & Hnd & Hr).
  rewrite put_idx_same_length by lia.
  destruct (put_pairs_spec (zip idx v) q) as (s & Hs & Hls & Hin & _).
  { apply Forall_forall. intros [i x] Hix. simpl.
    apply elem_of_zip_l in Hix. rewrite Forall_forall in Hr.
    rewrite Hq. by apply Hr. }
  { rewrite fst_zip by lia. exact Hnd. }
  exists s. split; [exact Hs|].
  apply take_idx_spec. split; [lia|]. intros k i Hk.
  destruct (lookup_lt_is_Some_2 v k) as [x Hx].
  { apply lookup_lt_Some in Hk. lia. }
  assert (Hsi : s !! i = Some x).
  { apply (Hin k). rewrite lookup_zip_with, Hk. simpl. by rewrite Hx. }
  rewrite Hsi, Hx. eauto.
Qed.

End GatherScatter.

Lemma ZIGZAG_POS_is_permutation : is_permutation_of 64 _ZIGZAG_POS.
Proof.
  split; [reflexivity|]. split; [|apply ZIGZAG_POS_range].
  apply (bool_decide_unpack (NoDup _ZIGZAG_POS)). vm_compute. exact I.
Qed.

Lemma flatten_reshape_rows {A} (rows cols : nat) (v : list A) :
  length v = (rows * cols)%nat ->
  flatten (reshape_rows rows cols v) = v /\
  length (reshape_rows rows cols v) = rows /\
  Forall (fun row => length row = cols) (reshape_rows rows cols v).
Proof.
  unfold flatten. revert v. induction rows as [|rows IH]; intros v Hv; simpl.
  - destruct v; [by repeat split|done].
  - destruct (IH (drop cols v)) as (Hf & Hl & Hr).
    { rewrite length_drop. lia. }
    rewrite Hf, take_drop. split; [done|]. split; [by rewrite Hl|].
    constructor; [|done]. rewrite length_take. lia.
Qed.

(** C3.  [_ZIGZAG_POS] is the inverse permutation of [_ZIGZAG_IDX]:
    [_ZIGZAG_POS[_ZIGZAG_IDX[k]] = k] (and [_ZIGZAG_IDX[_ZIGZAG_POS[k]] = k])
    for every [k] below 64; and for every 64-element vector [v], gathering
    through [_ZIGZAG_POS] (encoder) and then scattering through it (decoder)
    gives [v] back, and so does scattering and then gathering.  A 64-vector
    is the row-major flattening of an 8x8 block and conversely. *)
Theorem zigzag_inverse_and_round_trip {A} (zero : A) (v : list A) (k : nat) :
  (k < 64)%nat ->
  length v = 64%nat ->
  (exists z, _ZIGZAG_IDX !! k = Some z /\ _ZIGZAG_POS !! Z.to_nat z = Some k) /\
  (exists p, _ZIGZAG_POS !! k = Some p /\ _ZIGZAG_IDX !! p = Some (Z.of_nat k)) /\
  (exists g, take_idx v _ZIGZAG_POS = Ok g /\
             put_idx (replicate 64 zero) _ZIGZAG_POS g = Ok v) /\
  (exists s, put_idx (replicate 64 zero) _ZIGZAG_POS v = Ok s /\
             take_idx s _ZIGZAG_POS = Ok v) /\
  is_8x8 (reshape_rows 8 8 v) /\ flatten (reshape_rows 8 8 v) = v.
Proof.
  intros Hk Hv. split; [|split].
  - do 64 (destruct k as [|k]; [eexists; split; reflexivity|]). lia.
  - do 64 (destruct k as [|k]; [eexists; split; reflexivity|]). lia.
  - split; [|split].
    + apply (gather_scatter 64); [apply ZIGZAG_POS_is_permutation|done|].
      by rewrite length_replicate.
    + apply (scatter_gather 64); [apply ZIGZAG_POS_is_permutation|done|].
      by rewrite length_replicate.
    + destruct (flatten_reshape_rows 8 8 v Hv) as (Hf & Hl & Hr).
      by repeat split.
Qed.

Lemma zigzag_inverse_and_round_trip_witness :
  (exists z, _ZIGZAG_IDX !! 2%nat = Some z /\ _ZIGZAG_POS !! Z.to_nat z = Some 2%nat) /\
  (exists p, _ZIGZAG_POS !! 2%nat = Some p /\ _ZIGZAG_IDX !! p = Some 2) /\
  (exists g, take_idx (seq 100 64) _ZIGZAG_POS = Ok g /\
             put_idx (replicate 64 O) _ZIGZAG_POS g = Ok (seq 100 64)) /\
  (exists s, put_idx (replicate 64 O) _ZIGZAG_POS (seq 100 64) = Ok s /\
             take_idx s _ZIGZAG_POS = Ok (seq 100 64)) /\
  is_8x8 (reshape_rows 8 8 (seq 100 64)) /\
  flatten (reshape_rows 8 8 (seq 100 64)) = seq 100 64.
Proof.
  apply (zigzag_inverse_and_round_trip O (seq 100 64) 2); [lia | reflexivity].
Defined.

(** ** The quantisation matrix *)

Lemma check_quality_all :
  forallb check_quality (map Z.of_nat (seq 1 100)) = true.
Proof. vm_compute. reflexivity. Qed.

Lemma check_quality_in_range quality :
  1 <= quality <= 100 -> check_quality quality = true.
Proof.
  intros Hq. pose proof check_quality_all as H.
  rewrite forallb_forall in H. apply H.
  apply in_map_iff. exists (Z.to_nat quality). split; [lia|].
  apply in_seq. lia.
Qed.

Lemma cell_at_lt {A} (a : list (list A)) i j c :
  is_8x8 a -> cell_at a i j = Some c -> (i < 8)%nat /\ (j < 8)%nat.
Proof.
  intros [Hl Hr] H. unfold cell_at in H.
  destruct (a !! i) as [row|] eqn:E; simpl in H; [|done].
  split.
  - apply lookup_lt_Some in E. lia.
  - apply lookup_lt_Some in H.
    rewrite Forall_forall in Hr. rewrite <- (Hr row); [done|].
    by eapply list_elem_of_lookup_2.
Qed.

Lemma Q50_is_8x8 : is_8x8 _Q50.
Proof. split; [done|]. repeat constructor. Qed.

(** C4.  For every quality [q] in [1, 100] and every position [(i, j)],
    the cell of [quant_matrix q] is [clamp(round(Q50[i,j] * scale), 1, 255)]:
    [n] is the rounding of the float32 product of [Q50[i,j]] and the scale
    ([50.0 / q] below 50, [2.0 - q / 50.0] from 50 on), it is an integer
    nearest to the exact value of [Q50[i,j] * scale], and the cell lies in
    [1, 255].  [quant_matrix 100] is the all-ones matrix. *)
Theorem quant_matrix_cells (quality : Z) (i j : nat) (c : Z) :
  1 <= quality <= 100 ->
  cell_at _Q50 i j = Some c ->
  exists Q s n,
    quant_matrix quality = Ok Q /\
    quant_scale quality = Ok s /\
    scaled_cell (f32_of_f64 s) c = IFin n /\
    cell_at Q i j = Some (IFin (Z.min (Z.max n 1) 255)) /\
    is_nearest_integer n (exact_scaled quality c) /\
    1 <= Z.min (Z.max n 1) 255 <= 255 /\
    quant_matrix 100 = Ok (replicate 8 (replicate 8 (IFin 1))).
Proof.
  intros Hq Hc.
  pose proof (check_quality_in_range quality Hq) as Hchk.
  destruct (cell_at_lt _ _ _ _ Q50_is_8x8 Hc) as [Hi Hj].
  unfold check_quality in Hchk.
  destruct (quant_scale quality) as [s|] eqn:Es; [|done].
  destruct (quant_matrix quality) as [Q|]; [|done].
  rewrite forallb_forall in Hchk.
  specialize (Hchk i ltac:(apply in_seq; lia)).
  rewrite forallb_forall in Hchk.
  specialize (Hchk j ltac:(apply in_seq; lia)).
  unfold check_quant_cell in Hchk. rewrite Hc in Hchk.
  destruct (cell_at Q i j) as [[z| |]|] eqn:EQ; try done.
  destruct (scaled_cell (f32_of_f64 s) c) as [n| |] eqn:En; try done.
  apply andb_prop in Hchk as [Hchk H4].
  apply andb_prop in Hchk as [Hchk H3].
  apply andb_prop in Hchk as [H1 H2].
  apply Z.eqb_eq in H1. apply Z.leb_le in H2, H3, H4.
  exists Q, s, n. split; [done|]. split; [done|]. split; [exact En|].
  split; [by rewrite EQ, H1|].
  split; [exact H2|]. split; [lia|]. vm_compute. reflexivity.
Qed.

Lemma quant_matrix_cells_witness :
  exists Q s n,
    quant_matrix 20 = Ok Q /\
    quant_scale 20 = Ok s /\
    scaled_cell (f32_of_f64 s) 13 = IFin n /\
    cell_at Q 2 1 = Some (IFin (Z.min (Z.max n 1) 255)) /\
    is_nearest_integer n (exact_scaled 20 13) /\
    1 <= Z.min (Z.max n 1) 255 <= 255 /\
    quant_matrix 100 = Ok (replicate 8 (replicate 8 (IFin 1))).
Proof.
  apply (quant_matrix_cells 20 2 1 13); [lia | reflexivity].
Defined.

(** ** Rounding *)

Lemma rint_mag_half m e k :
  e < 0 -> 2 * Zpos m = (2 * k + 1) * 2 ^ (- e) ->
  rint_mag m e = even_neighbour k.
Proof.
  intros He Hm. unfold rint_mag, even_neighbour.
  destruct (0 <=? e) eqn:E; [lia|].
  set (h := 2 ^ (- e - 1)).
  assert (Hh : 0 < h) by (apply Z.pow_pos_nonneg; lia).
  assert (Hd : 2 ^ (- e) = 2 * h).
  { unfold h. rewrite <- Z.pow_succ_r by lia. f_equal. lia. }
  rewrite Hd in *.
  assert (Hmk : Zpos m = k * (2 * h) + h) by nia.
  assert (Hk : 0 <= k) by nia.
  assert (Hq : Zpos m / (2 * h) = k).
  { symmetry. apply (Z.div_unique _ _ k h); lia. }
  assert (Hr : Zpos m mod (2 * h) = h).
  { symmetry. apply (Z.mod_unique _ _ k h); lia. }
  cbv zeta. rewrite Hq, Hr, Z.compare_refl. done.
Qed.

Lemma np_round_half x k :
  is_half_integer x k -> np_round x = IFin (even_neighbour k).
Proof.
  destruct x as [| | |s m e]; try done.
  intros [He Hm]. simpl. f_equal. destruct s; simpl in *.
  - rewrite (rint_mag_half m e (- k - 1)) by lia.
    unfold even_neighbour.
    replace (- k - 1) with (- (k + 1)) by lia.
    rewrite Z.even_opp, Z.even_add. simpl.
    destruct (Z.even k); simpl; lia.
  - by apply rint_mag_half.
Qed.

(** C8, amended.  The rounding applied during quantisation - [np.round] in
    [round(Q50[i,j] * scale)] of the matrix builder and in [round(D / Q)] of
    the encoder - rounds an exact half to the even neighbour, not away
    from zero: when the float that is rounded is exactly [k + 1/2], the
    result is [k] for an even [k] and [k + 1] for an odd one. *)
Theorem rounding_is_half_to_even (scale d : float32) (c : Z) (q : ifloat) (k1 k2 : Z) :
  is_half_integer (f32_mul (f32_of_Z c) scale) k1 ->
  is_half_integer (f32_div d (f32_of_ifloat q)) k2 ->
  - 32768 <= k2 < 32767 ->
  scaled_cell scale c = IFin (even_neighbour k1) /\
  quantize_coef d q = even_neighbour k2.
Proof.
  intros H1 H2 Hr. split.
  - unfold scaled_cell. by apply np_round_half.
  - unfold quantize_coef. rewrite (np_round_half _ _ H2).
    unfold astype_int16, wrap_signed, even_neighbour.
    destruct (Z.even k2).
    + rewrite (proj2 (andb_true_iff _ _)) by (split; lia).
      change (2 ^ (16 - 1)) with 32768. change (2 ^ 16) with 65536.
      rewrite Z.mod_small by lia. lia.
    + rewrite (proj2 (andb_true_iff _ _)) by (split; lia).
      change (2 ^ (16 - 1)) with 32768. change (2 ^ 16) with 65536.
      rewrite Z.mod_small by lia. lia.
Qed.

Lemma rounding_is_half_to_even_witness :
  scaled_cell (f32_of_f64 (f64_div (f64_of_Z 50) (f64_of_Z 20))) 13 = IFin 32 /\
  quantize_coef (f32_of_Z 5) (IFin 2) = 2.
Proof.
  apply (rounding_is_half_to_even _ (f32_of_Z 5) 13 (IFin 2) 32 2).
  - vm_compute. split; [reflexivity|reflexivity].
  - vm_compute. split; reflexivity.
  - lia.
Defined.

(** C8 as stated fails: at quality 20 the scale is exactly 2.5 and the cell
    [Q50[2,1] = 13] gives 32.5, which half-away-from-zero rounds to 33;
    [quant_matrix 20] holds 32.  In the encoder a coefficient 5.0 over a
    quantiser 2 is 2.5 and is stored as 2, not 3. *)
Lemma rounding_is_not_half_away :
  cell_at _Q50 2 1 = Some 13 /\
  exact_scaled 20 13 = (650, 20) /\
  round_half_away (650, 20) = 33 /\
  ((fun Q => cell_at Q 2 1) <$> quant_matrix 20) = Ok (Some (IFin 32)) /\
  quantize_coef (f32_of_Z 5) (IFin 2) = 2 /\
  round_half_away (5, 2) = 3.
Proof. repeat split; vm_compute; reflexivity. Qed.

(** ** Quantisation of the coefficients *)

Lemma astype_int16_range x : - 32768 <= astype_int16 x <= 32767.
Proof.
  unfold astype_int16, wrap_signed. destruct x as [z| |]; try lia.
  destruct (_ && _); [|lia].
  change (2 ^ (16 - 1)) with 32768. change (2 ^ 16) with 65536.
  pose proof (Z.mod_pos_bound (z + 32768) 65536). lia.
Qed.


Lemma astype_int16_wraps z :
  - 2 ^ 31 <= z < 2 ^ 31 -> astype_int16 (IFin z) = wrap_signed 16 z.
Proof.
  intros Hz. unfold astype_int16.
  by rewrite (proj2 (andb_true_iff _ _)) by (split; lia).
Qed.

Lemma Forall_zip_with_all {A B C} (P : C -> Prop) (f : A -> B -> C) l k :
  (forall x y, P (f x y)) -> Forall P (zip_with f l k).
Proof.
  intros Hf. revert k. induction l as [|x l IH]; intros [|y k]; simpl;
    constructor; auto.
Qed.



Lemma is_8x8_zip_with {A B C} (f : A -> B -> C) a b :
  is_8x8 a -> is_8x8 b -> is_8x8 (zip_with (zip_with f) a b).
Proof.
  intros [Ha Hra] [Hb Hrb]. split; [rewrite length_zip_with; lia|].
  clear Ha Hb. revert b Hrb.
  induction Hra as [|r a Hr _ IH]; intros b Hrb; [constructor|].
  destruct Hrb as [|s b Hs Hrb]; simpl; constructor.
  - rewrite length_zip_with. lia.
  - by apply IH.
Qed.

Lemma is_8x8_flatten {A} (a : list (list A)) :
  is_8x8 a -> length (flatten a) = 64%nat.
Proof.
  intros [Hl Hr]. unfold flatten.
  do 8 (destruct a as [|? a]; [discriminate|]). destruct a; [|discriminate].
  repeat match goal with H : Forall _ (_ :: _) |- _ => inversion H; clear H; subst end.
  simpl. rewrite !length_app. simpl. lia.
Qed.


(** ** The decoder *)

(** Inversion of a chain of binds that ends in [Ok]. *)
Ltac inv_result H :=
  unfold mbind, result_bind, f_read in H;
  repeat (cbn beta iota zeta in H;
          match type of H with
          | match ?x with _ => _ end = Ok _ =>
              let E := fresh "E" in destruct x eqn:E; try discriminate H
          end).



Example recon_sample_saturates_example :
  recon_sample (f32_of_Z 250) (f32_of_Z 10) = 255 /\
  recon_sample (f32_of_Z 3) (f32_of_Z (- 10)) = 0.
Proof. split; vm_compute; reflexivity. Qed.

Lemma unpack_fields_insert_down buf b :
  unpack_fields (<[10%nat := b]> buf)
  = (fun hdr => with_down hdr (Z_of_byte b)) <$> unpack_fields buf.
Proof.
  unfold unpack_fields. rewrite length_insert.
  destruct (decide (length buf = header_fields_size)) as [Hl|]; [|done].
  do 20 (destruct buf as [|? buf]; [discriminate|]).
  destruct buf; [|discriminate]. reflexivity.
Qed.

Lemma unpack_fields_insert_channels buf b :
  unpack_fields (<[8%nat := b]> buf)
  = (fun hdr => with_channels hdr (Z_of_byte b)) <$> unpack_fields buf.
Proof.
  unfold unpack_fields. rewrite length_insert.
  destruct (decide (length buf = header_fields_size)) as [Hl|]; [|done].
  do 20 (destruct buf as [|? buf]; [discriminate|]).
  destruct buf; [|discriminate]. reflexivity.
Qed.

(** Overwriting a byte of the fixed fields changes neither the magic test
    nor what follows the header. *)
Lemma unpack_header_insert (i : nat) b f :
  (5 <= i < 25)%nat ->
  _unpack_header (<[i := b]> f)
  = (if decide (take 5 f = MAGIC) then
       hdr ← unpack_fields (<[(i - 5)%nat := b]> (take 20 (drop 5 f)));
       Ok (hdr, drop 20 (drop 5 f))
     else Raise ValueError).
Proof.
  intros Hi. unfold _unpack_header, f_read.
  change (length MAGIC) with 5%nat. change header_fields_size with 20%nat.
  rewrite take_insert_ge by lia.
  destruct (decide (take 5 f = MAGIC)); [|done].
  rewrite drop_insert_ge by lia.
  rewrite take_insert_lt by lia.
  by rewrite drop_insert_lt by lia.
Qed.

Lemma unpack_header_unfold f :
  _unpack_header f
  = (if decide (take 5 f = MAGIC) then
       hdr ← unpack_fields (take 20 (drop 5 f));
       Ok (hdr, drop 20 (drop 5 f))
     else Raise ValueError).
Proof. reflexivity. Qed.

Lemma unpack_header_insert_down f b :
  _unpack_header (<[15%nat := b]> f)
  = (fun '(hdr, rest) => (with_down hdr (Z_of_byte b), rest)) <$> _unpack_header f.
Proof.
  rewrite unpack_header_insert by lia. rewrite unpack_header_unfold.
  destruct (decide (take 5 f = MAGIC)); [|done].
  change (15 - 5)%nat with 10%nat. rewrite unpack_fields_insert_down.
  by destruct (unpack_fields _).
Qed.

Lemma unpack_header_insert_channels f b :
  _unpack_header (<[13%nat := b]> f)
  = (fun '(hdr, rest) => (with_channels hdr (Z_of_byte b), rest)) <$> _unpack_header f.
Proof.
  rewrite unpack_header_insert by lia. rewrite unpack_header_unfold.
  destruct (decide (take 5 f = MAGIC)); [|done].
  change (13 - 5)%nat with 8%nat. rewrite unpack_fields_insert_channels.
  by destruct (unpack_fields _).
Qed.

(** Case analysis on every bind of a goal that relates two runs. *)
Ltac step_binds :=
  unfold mbind, result_bind, fmap, result_fmap, f_read;
  repeat (cbn [with_down with_channels h_w h_h h_channels h_block_size h_down
               h_quality h_base_len];
          match goal with
          | |- context [match ?x with _ => _ end] =>
              lazymatch x with
              | context [match _ with _ => _ end] => fail
              | _ => destruct x; try reflexivity
              end
          end).

Section Decode.

Context (lib : Libs).

Lemma reconstruct_insert_down f b :
  reconstruct lib (<[15%nat := b]> f)
  = (fun '(hdr, recon) => (with_down hdr (Z_of_byte b), recon)) <$> reconstruct lib f.
Proof.
  unfold reconstruct. rewrite unpack_header_insert_down.
  destruct (_unpack_header f) as [[[w h c bs d q bl] rest]|]; [|done].
  cbn [fmap result_fmap with_down h_w h_h h_channels h_block_size h_down
       h_quality h_base_len].
  step_binds.
Qed.

Lemma reconstruct_insert_channels f b :
  reconstruct lib (<[13%nat := b]> f)
  = (fun '(hdr, recon) => (with_channels hdr (Z_of_byte b), recon)) <$> reconstruct lib f.
Proof.
  unfold reconstruct. rewrite unpack_header_insert_channels.
  destruct (_unpack_header f) as [[[w h c bs d q bl] rest]|]; [|done].
  cbn [fmap result_fmap with_channels h_w h_h h_channels h_block_size h_down
       h_quality h_base_len].
  step_binds.
Qed.

Lemma decompress_file_insert_down f b :
  decompress_file lib (<[15%nat := b]> f)
  = (fun '(png, st) =>
       (png, mkDecStats (dec_w st) (dec_h st) (Z_of_byte b) (dec_quality st)
                        (recon_bytes st))) <$> decompress_file lib f.
Proof.
  unfold decompress_file. rewrite reconstruct_insert_down.
  destruct (reconstruct lib f) as [[[w h c bs d q bl] recon]|]; [|done].
  cbn [fmap result_fmap with_down h_w h_h h_channels h_block_size h_down
       h_quality h_base_len].
  step_binds.
Qed.

Lemma decompress_file_insert_channels f b :
  decompress_file lib (<[13%nat := b]> f) = decompress_file lib f.
Proof.
  unfold decompress_file. rewrite reconstruct_insert_channels.
  destruct (reconstruct lib f) as [[[w h c bs d q bl] recon]|]; [|done].
  cbn [fmap result_fmap with_channels h_w h_h h_channels h_block_size h_down
       h_quality h_base_len].
  step_binds.
Qed.

End Decode.

Lemma differ_at_is_insert {A} (f1 f2 : list A) (i : nat) :
  length f1 = length f2 ->
  (forall j, j <> i -> f1 !! j = f2 !! j) ->
  f2 = f1 \/ exists b, f2 = <[i := b]> f1.
Proof.
  intros Hlen Hsame.
  destruct (f2 !! i) as [b|] eqn:Hb.
  - right. exists b. apply list_eq. intros j.
    destruct (decide (j = i)) as [->|Hne].
    + rewrite list_lookup_insert_eq; [done|].
      apply lookup_lt_Some in Hb. lia.
    + rewrite list_lookup_insert_ne by done. symmetry. by apply Hsame.
  - left. apply list_eq. intros j.
    destruct (decide (j = i)) as [->|Hne].
    + rewrite Hb. symmetry. apply lookup_ge_None.
      apply lookup_ge_None in Hb. lia.
    + symmetry. by apply Hsame.
Qed.

(** C10.  For two containers of the same length that agree on every byte
    except the header's [down] byte (offset 15), [decompress_file] fails in
    the same way or returns the same PNG bytes; the other statistics agree
    too, so the [down] field reaches nothing but the [down] entry of the
    statistics. *)
Theorem down_byte_only_reaches_stats (lib : Libs) (f1 f2 : fileobj) :
  length f1 = length f2 ->
  (forall j, j <> 15%nat -> f1 !! j = f2 !! j) ->
  (fst <$> decompress_file lib f2) = (fst <$> decompress_file lib f1) /\
  ((fun '(_, st) => (dec_w st, dec_h st, dec_quality st, recon_bytes st))
     <$> decompress_file lib f2)
  = ((fun '(_, st) => (dec_w st, dec_h st, dec_quality st, recon_bytes st))
       <$> decompress_file lib f1).
Proof.
  intros Hlen Hsame.
  destruct (differ_at_is_insert f1 f2 15 Hlen Hsame) as [->|[b ->]]; [done|].
  rewrite decompress_file_insert_down.
  by destruct (decompress_file lib f1) as [[png st]|].
Qed.

Lemma down_byte_only_reaches_stats_witness :
  (fst <$> decompress_file Toy.libs (<[15%nat := byte_of_Z 9]> Toy.container_2x2))
  = (fst <$> decompress_file Toy.libs Toy.container_2x2) /\
  ((fun '(_, st) => (dec_w st, dec_h st, dec_quality st, recon_bytes st))
     <$> decompress_file Toy.libs (<[15%nat := byte_of_Z 9]> Toy.container_2x2))
  = ((fun '(_, st) => (dec_w st, dec_h st, dec_quality st, recon_bytes st))
       <$> decompress_file Toy.libs Toy.container_2x2).
Proof.
  apply (down_byte_only_reaches_stats Toy.libs).
  - reflexivity.
  - intros j Hj. symmetry. by apply list_lookup_insert_ne.
Defined.

Section DecodeErrors.

Context (lib : Libs).

Lemma decompress_file_bad_magic (f : list byte) :
  take 5 f <> MAGIC -> decompress_file lib f = Raise ValueError.
Proof.
  intros Hm. unfold decompress_file, reconstruct.
  rewrite unpack_header_unfold. by rewrite decide_False.
Qed.

Lemma decompress_file_short_header (f : list byte) :
  take 5 f = MAGIC -> (length f < 25)%nat ->
  decompress_file lib f = Raise StructError.
Proof.
  intros Hm Hl. unfold decompress_file, reconstruct.
  rewrite unpack_header_unfold. rewrite decide_True by done.
  unfold unpack_fields. rewrite decide_False; [done|].
  rewrite length_take, length_drop. unfold header_fields_size. lia.
Qed.

End DecodeErrors.

(** ** The encoder and the file system *)

Lemma pack_header_Raise w h channels block_size down quality base_len e :
  _pack_header w h channels block_size down quality base_len = Raise e ->
  e = StructError.
Proof.
  unfold _pack_header.
  repeat match goal with
         | |- context [pack_field ?n ?v] =>
             destruct (pack_field_cases n v) as [[? ->]| ->]; simpl;
             [|by intros [= <-]]
         end.
  done.
Qed.

Lemma write_container_Raise out_path w h down quality base payload fs fs' e :
  write_container out_path w h down quality base payload fs = (fs', Raise e) ->
  e = StructError /\ forall p, p <> out_path -> fs' !! p = fs !! p.
Proof.
  unfold write_container.
  destruct (_pack_header _ _ _ _ _ _ _) as [header|e1] eqn:Eh.
  - destruct (pack_field_cases 8 (Z.of_nat (length payload))) as [[? ->]| ->];
      [done|].
    intros [= <- <-]. split; [done|]. intros p Hp.
    by rewrite !lookup_insert_ne.
  - intros [= <- <-]. split; [by eapply pack_header_Raise|].
    intros p Hp. by rewrite lookup_insert_ne.
Qed.

(** C6, amended.  [compress_image] is a deterministic function of its
    arguments and of the file system, which it reads and writes: it reads
    the image at [path] and writes the container to [out_path].  No file
    other than [out_path] is ever changed.  When it returns, [out_path]
    holds the complete container - the 25-byte header, the base layer, the
    8-byte length and the payload.  When it raises an error other than the
    [struct.error] of the packing step - the input is missing or unreadable,
    a library call fails, [down] or [quality] is 0 - the file system is
    unchanged. *)
Theorem compress_image_file_effects (lib : Libs) path quality down
    (fs fs' : gmap string (list byte)) r :
  compress_image lib path quality down fs = (fs', r) ->
  (forall p, p <> out_path_of path -> fs' !! p = fs !! p) /\
  (forall out_path stats, r = Ok (out_path, stats) ->
     out_path = out_path_of path /\
     exists header base plen payload,
       fs' = <[out_path := header ++ base ++ plen ++ payload]> fs /\
       length header = 25%nat /\ length plen = 8%nat /\
       base_bytes stats = Z.of_nat (length base) /\
       be_value plen = Z.of_nat (length payload) /\
       out_bytes stats = Z.of_nat (length (header ++ base ++ plen ++ payload))) /\
  (forall e, r = Raise e -> e <> StructError -> fs' = fs).
Proof.
  intros Hc. split; [|split].
  - intros p Hp. revert Hc. unfold compress_image.
    destruct (fs !! path) as [data|]; [|by intros [= <- _]].
    destruct (im ← Image_open lib data; _) as [[im [base payload]]|];
      [|by intros [= <- _]].
    destruct (im_size im) as [orig_w orig_h].
    destruct (write_container _ _ _ _ _ _ _ _) as [fs1 [[]|e]] eqn:Ew;
      intros [= <- _].
    + apply write_container_Ok in Ew as (header & plen & _ & _ & ->).
      by rewrite lookup_insert_ne.
    + apply write_container_Raise in Ew as [_ Hw]. by apply Hw.
  - intros out_path stats ->.
    apply compress_image_Ok in Hc
      as (data & im & base & payload & header & plen & _ & _ & _ & Eh & Ep
          & -> & -> & Hb & _ & Ho & _).
    split; [done|]. exists header, base, plen, payload.
    destruct (unpack_pack_header _ _ _ _ _ _ _ _ [] Eh) as [Hlen _].
    apply pack_field_Ok in Ep as [Hr ->].
    rewrite length_be_bytes, be_value_be_bytes by done. done.
  - intros e -> He. revert Hc. unfold compress_image.
    destruct (fs !! path) as [data|] eqn:Efs; [|by intros [= <- _]].
    destruct (im ← Image_open lib data; _) as [[im [base payload]]|];
      [|by intros [= <- _]].
    destruct (im_size im) as [orig_w orig_h].
    destruct (write_container _ _ _ _ _ _ _ _) as [fs1 [[]|e1]] eqn:Ew.
    + apply write_container_Ok in Ew as (header & plen & _ & _ & ->).
      unfold file_len. rewrite lookup_insert_eq.
      destruct (decide (out_path_of path = path)) as [->|Hne].
      * rewrite lookup_insert_eq. simpl. intros [=].
      * rewrite lookup_insert_ne, Efs by done. simpl. intros [=].
    + apply write_container_Raise in Ew as [-> _]. intros [= _ <-]. done.
Qed.

Lemma compress_image_file_effects_witness :
  compress_image Toy.libs "in.png" 50 2 Toy.fs_2x2
  = (<["in_mc2.mcmp2"%string := Toy.container_2x2]> Toy.fs_2x2,
     Ok ("in_mc2.mcmp2"%string, mkEncStats 16 7 396 436 2 2 2 50)) /\
  (forall p, p <> "in_mc2.mcmp2"%string ->
     (<["in_mc2.mcmp2"%string := Toy.container_2x2]> Toy.fs_2x2) !! p
     = Toy.fs_2x2 !! p).
Proof.
  split; [vm_compute; reflexivity|].
  apply (compress_image_file_effects Toy.libs "in.png" 50 2 Toy.fs_2x2
           _ (Ok ("in_mc2.mcmp2"%string, mkEncStats 16 7 396 436 2 2 2 50))).
  vm_compute. reflexivity.
Defined.

(** C6 as stated fails: with [down = 256] the encoder raises after it has
    opened the output file; the file did not exist before and exists, empty,
    after the failure. *)
Lemma compress_image_leaves_file_on_failure :
  Toy.fs_256 !! "in_mc2.mcmp2"%string = None /\
  (compress_image Toy.libs "in.png" 50 256 Toy.fs_256).2 = Raise StructError /\
  (compress_image Toy.libs "in.png" 50 256 Toy.fs_256).1 !! "in_mc2.mcmp2"%string
  = Some [].
Proof.
  pose proof run_256 as H0. cbv zeta in H0.
  destruct (pair_eq_inv _ _ _ _ H0) as [H _].
  destruct (pair_eq_inv _ _ _ _ H) as [H' H3].
  destruct (pair_eq_inv _ _ _ _ H') as [H1 H2].
  split; [exact H3|]. split; [exact H1|exact H2].
Qed.

(* ================================================================== *)
(** * Part III: further properties of the code *)

(** ** More on the header *)

Lemma byte_of_Z_of_byte b : byte_of_Z (Z_of_byte b) = b.
Proof.
  unfold byte_of_Z, Z_of_byte.
  pose proof (Byte.to_N_bounded b).
  rewrite Z.mod_small by lia. rewrite N2Z.id.
  by rewrite Byte.of_to_N.
Qed.

(** Writing the value of a byte string back on as many bytes gives the
    byte string. *)
Lemma be_bytes_be_value bs : be_bytes (length bs) (be_value bs) = bs.
Proof.
  induction bs as [|b bs IH] using rev_ind; [done|].
  rewrite length_app. simpl. rewrite Nat.add_1_r. simpl.
  rewrite be_value_snoc.
  pose proof (Z_of_byte_range b).
  replace ((be_value bs * 256 + Z_of_byte b) / 256) with (be_value bs).
  2:{ apply (Z.div_unique _ _ _ (Z_of_byte b)); lia. }
  rewrite IH. f_equal. f_equal.
  rewrite <- (byte_of_Z_of_byte b) at 2. unfold byte_of_Z.
  replace ((be_value bs * 256 + Z_of_byte b) mod 256) with (Z_of_byte b mod 256); [done|].
  rewrite Z.add_comm, Z.mod_add by lia. done.
Qed.

(** The header parser succeeds exactly on an input of at least 25 bytes
    that starts with the magic. *)
Lemma unpack_header_Ok_cond (f : list byte) :
  (exists hdr rest, _unpack_header f = Ok (hdr, rest)) <->
  take 5 f = MAGIC /\ (25 <= length f)%nat.
Proof.
  rewrite unpack_header_unfold. unfold unpack_fields, header_fields_size.
  rewrite length_take, length_drop. split.
  - intros (hdr & rest & H).
    destruct (decide (take 5 f = MAGIC)); [|done]. split; [done|].
    destruct (decide (_ = 20%nat)); [lia|done].
  - intros [Hm Hl]. rewrite decide_True by done.
    rewrite decide_True by lia. simpl. eauto.
Qed.

(** X2. [_unpack_header] succeeds on exactly the inputs that start with
    the five magic bytes and hold at least 25 bytes; nothing else about the
    header is checked there. *)
Theorem unpack_header_succeeds_iff (f : list byte) :
  (exists hdr rest, _unpack_header f = Ok (hdr, rest)) <->
  take 5 f = MAGIC /\ (25 <= length f)%nat.
Proof. apply unpack_header_Ok_cond. Qed.

(** X1. Parsing then packing: when [_unpack_header] accepts a file, the
    rest it returns is the file after its first 25 bytes, and
    [_pack_header] on the parsed fields succeeds and gives back those 25
    bytes. *)
Theorem unpack_then_pack_header (f : list byte) hdr rest :
  _unpack_header f = Ok (hdr, rest) ->
  f = take 25 f ++ rest /\
  _pack_header (h_w hdr) (h_h hdr) (h_channels hdr) (h_block_size hdr)
               (h_down hdr) (h_quality hdr) (h_base_len hdr)
  = Ok (take 25 f).
Proof.
  intros H.
  assert (Hex : take 5 f = MAGIC /\ (25 <= length f)%nat)
    by (apply unpack_header_Ok_cond; eauto).
  destruct Hex as [Hm Hl].
  rewrite unpack_header_unfold in H. rewrite decide_True in H by done.
  unfold unpack_fields, header_fields_size in H.
  rewrite decide_True in H by (rewrite length_take, length_drop; lia).
  simpl in H. injection H as <- <-.
  rewrite drop_drop. split; [by rewrite take_drop|].
  cbn [h_w h_h h_channels h_block_size h_down h_quality h_base_len].
  set (buf := take 20 (drop 5 f)).
  assert (Hbuf : length buf = 20%nat)
    by (unfold buf; rewrite length_take, length_drop; lia).
  assert (Hsplit : take 25 f = MAGIC ++ buf).
  { unfold buf. rewrite <- Hm. rewrite take_drop_commute.
    change (5 + 20)%nat with 25%nat.
    rewrite <- (take_drop 5 (take 25 f)) at 1. f_equal.
    rewrite take_take. f_equal. }
  rewrite Hsplit. clearbody buf.
  do 20 (destruct buf as [|? buf]; [discriminate|]).
  destruct buf; [|discriminate].
  cbn [take drop firstn skipn].
  unfold _pack_header.
  repeat match goal with
  | |- context [pack_field ?n (be_value ?bs)] =>
      rewrite (pack_field_in_range n (be_value bs)) by (apply (be_value_range bs));
      change n with (length bs); rewrite (be_bytes_be_value bs)
  end.
  reflexivity.
Qed.

Lemma unpack_then_pack_header_witness :
  let f := MAGIC ++ be_bytes 4 640 ++ be_bytes 4 480 ++ be_bytes 1 3
           ++ be_bytes 1 8 ++ be_bytes 1 2 ++ be_bytes 1 75 ++ be_bytes 8 10
           ++ [x01; x02] in
  f = take 25 f ++ [x01; x02] /\
  _pack_header 640 480 3 8 2 75 10 = Ok (take 25 f).
Proof.
  cbv zeta.
  apply (unpack_then_pack_header _ (mkHeader 640 480 3 8 2 75 10) [x01; x02]).
  vm_compute. reflexivity.
Defined.


(** X3. [_pack_header] succeeds exactly when every field fits its
    [struct] format (4, 4, 1, 1, 1, 1 and 8 bytes, unsigned), and the header
    is then 25 bytes long; otherwise it raises [struct.error]. *)
Theorem pack_header_Ok_iff w h channels block_size down quality base_len :
  let in_range :=
    0 <= w < 2 ^ 32 /\ 0 <= h < 2 ^ 32 /\ 0 <= channels < 256 /\
    0 <= block_size < 256 /\ 0 <= down < 256 /\ 0 <= quality < 256 /\
    0 <= base_len < 2 ^ 64 in
  (in_range ->
   exists hdr, _pack_header w h channels block_size down quality base_len = Ok hdr
               /\ length hdr = 25%nat) /\
  (~ in_range ->
   _pack_header w h channels block_size down quality base_len = Raise StructError).
Proof.
  cbv zeta. split.
  - intros (Hw & Hh & Hc & Hb & Hd & Hq & Hl).
    rewrite pack_header_in_range by done. eexists. split; [done|].
    rewrite !length_app, !length_be_bytes. done.
  - intros Hn.
    destruct (_pack_header w h channels block_size down quality base_len)
      as [hdr|e] eqn:E.
    + apply pack_header_Ok in E as [Hr _]. by destruct Hn.
    + f_equal. by eapply pack_header_Raise.
Qed.

(** ** The quantisation matrix over the byte range *)

Lemma check_quality_byte_all :
  forallb check_quality_byte (map Z.of_nat (seq 0 256)) = true.
Proof. vm_compute. reflexivity. Qed.

Lemma check_quality_step_all :
  forallb check_quality_step (map Z.of_nat (seq 1 254)) = true.
Proof. vm_compute. reflexivity. Qed.

Lemma forallb_seq_Z (check : Z -> bool) (start len : nat) (z : Z) :
  forallb check (map Z.of_nat (seq start len)) = true ->
  Z.of_nat start <= z < Z.of_nat (start + len) ->
  check z = true.
Proof.
  intros H Hz. rewrite forallb_forall in H. apply H.
  apply in_map_iff. exists (Z.to_nat z). split; [lia|].
  apply in_seq. lia.
Qed.

Lemma forallb_cells (check : nat -> nat -> bool) i j :
  forallb (fun i => forallb (check i) (seq 0 8)) (seq 0 8) = true ->
  (i < 8)%nat -> (j < 8)%nat -> check i j = true.
Proof.
  intros H Hi Hj. rewrite forallb_forall in H.
  specialize (H i ltac:(apply in_seq; lia)).
  rewrite forallb_forall in H. apply H. apply in_seq. lia.
Qed.

Lemma quant_matrix_byte_cases (quality : Z) (i j : nat) :
  0 <= quality <= 255 -> (i < 8)%nat -> (j < 8)%nat ->
  (quality = 0 -> quant_matrix quality = Raise ZeroDivisionError) /\
  (1 <= quality ->
   exists Q z, quant_matrix quality = Ok Q /\ shape2 Q = (8, 8)%nat /\
     cell_at Q i j = Some (IFin z) /\ 1 <= z <= 255 /\
     (100 <= quality -> z = 1)).
Proof.
  intros Hq Hi Hj.
  pose proof (forallb_seq_Z _ 0 256 quality check_quality_byte_all ltac:(lia)) as H.
  unfold check_quality_byte in H.
  destruct (quant_matrix quality) as [Q|e].
  - apply andb_prop in H as [H Hs]. apply andb_prop in H as [H0 H].
    apply negb_true_iff, Z.eqb_neq in H0.
    split; [lia|]. intros _.
    pose proof (forallb_cells _ i j H Hi Hj) as Hc. simpl in Hc.
    destruct (cell_at Q i j) as [[z| |]|] eqn:EQ; try done.
    apply andb_prop in Hc as [Hc H3]. apply andb_prop in Hc as [H1 H2].
    exists Q, z. split; [done|]. split; [by apply bool_decide_eq_true in Hs|].
    split; [done|]. split; [lia|]. intros Hh.
    apply orb_prop in H3 as [H3|H3]; lia.
  - destruct e; try done. apply Z.eqb_eq in H. split; [done|lia].
Qed.

(** X4. Over the qualities a header byte can hold: [quant_matrix 0]
    raises [ZeroDivisionError]; for 1..255 the matrix is 8x8 with every
    cell an integer in 1..255, and from 100 on every cell is 1. *)
Theorem quant_matrix_byte_range (quality : Z) (i j : nat) :
  0 <= quality <= 255 -> (i < 8)%nat -> (j < 8)%nat ->
  (quality = 0 -> quant_matrix quality = Raise ZeroDivisionError) /\
  (1 <= quality ->
   exists Q z, quant_matrix quality = Ok Q /\ shape2 Q = (8, 8)%nat /\
     cell_at Q i j = Some (IFin z) /\ 1 <= z <= 255 /\
     (100 <= quality -> z = 1)).
Proof. apply quant_matrix_byte_cases. Qed.

Lemma quant_matrix_byte_range_witness :
  (200 = 0 -> quant_matrix 200 = Raise ZeroDivisionError) /\
  (1 <= 200 ->
   exists Q z, quant_matrix 200 = Ok Q /\ shape2 Q = (8, 8)%nat /\
     cell_at Q 3 5 = Some (IFin z) /\ 1 <= z <= 255 /\
     (100 <= 200 -> z = 1)).
Proof. apply (quant_matrix_byte_range 200 3 5); lia. Defined.

Lemma quant_step (quality : Z) (i j : nat) :
  1 <= quality <= 254 -> (i < 8)%nat -> (j < 8)%nat ->
  exists Q Q' z z',
    quant_matrix quality = Ok Q /\ quant_matrix (quality + 1) = Ok Q' /\
    cell_at Q i j = Some (IFin z) /\ cell_at Q' i j = Some (IFin z') /\ z' <= z.
Proof.
  intros Hq Hi Hj.
  pose proof (forallb_seq_Z _ 1 254 quality check_quality_step_all ltac:(lia)) as H.
  unfold check_quality_step in H.
  destruct (quant_matrix quality) as [Q|]; [|done].
  destruct (quant_matrix (quality + 1)) as [Q'|]; [|done].
  pose proof (forallb_cells _ i j H Hi Hj) as Hc. simpl in Hc.
  destruct (cell_at Q i j) as [[z| |]|] eqn:EQ; try done.
  destruct (cell_at Q' i j) as [[z'| |]|] eqn:EQ'; try done.
  exists Q, Q', z, z'. repeat split; try done; lia.
Qed.

(** X5. A higher quality never gives a coarser quantisation step: for
    qualities [1 <= q1 <= q2 <= 255] every cell of [quant_matrix q2] is at
    most the same cell of [quant_matrix q1]. *)
Theorem quant_matrix_monotone (q1 q2 : Z) (i j : nat) :
  1 <= q1 -> q1 <= q2 -> q2 <= 255 -> (i < 8)%nat -> (j < 8)%nat ->
  exists Q1 Q2 z1 z2,
    quant_matrix q1 = Ok Q1 /\ quant_matrix q2 = Ok Q2 /\
    cell_at Q1 i j = Some (IFin z1) /\ cell_at Q2 i j = Some (IFin z2) /\
    z2 <= z1.
Proof.
  intros H1 H12 H2 Hi Hj.
  replace q2 with (q1 + Z.of_nat (Z.to_nat (q2 - q1))) in * by lia.
  generalize dependent (Z.to_nat (q2 - q1)). intros n. clear q2.
  induction n as [|n IH]; intros H12 H2.
  - rewrite Z.add_0_r.
    destruct (quant_matrix_byte_cases q1 i j ltac:(lia) Hi Hj) as [_ H].
    destruct (H H1) as (Q & z & HQ & _ & Hc & _).
    exists Q, Q, z, z. repeat split; try done; lia.
  - destruct IH as (Q1 & Q2 & z1 & z2 & HQ1 & HQ2 & Hc1 & Hc2 & Hle); [lia|lia|].
    destruct (quant_step (q1 + Z.of_nat n) i j ltac:(lia) Hi Hj)
      as (Q & Q' & z & z' & HQ & HQ' & Hc & Hc' & Hle').
    replace (q1 + Z.of_nat (S n)) with (q1 + Z.of_nat n + 1) by lia.
    rewrite HQ2 in HQ. injection HQ as <-. rewrite Hc2 in Hc. injection Hc as <-.
    exists Q1, Q', z1, z'. repeat split; try done; lia.
Qed.

Lemma quant_matrix_monotone_witness :
  exists Q1 Q2 z1 z2,
    quant_matrix 10 = Ok Q1 /\ quant_matrix 90 = Ok Q2 /\
    cell_at Q1 0 0 = Some (IFin z1) /\ cell_at Q2 0 0 = Some (IFin z2) /\
    z2 <= z1.
Proof. apply (quant_matrix_monotone 10 90 0 0); lia. Defined.

(** ** The blockifier *)

Lemma map_fmap {A B} (f : A -> B) (l : list A) : map f l = f <$> l.
Proof. induction l; simpl; by f_equal. Qed.


Lemma pad_zeros_shape {A} (zero : A) R C (a : list (list A)) :
  length (pad_zeros zero R C a) = R /\
  Forall (fun row => length row = C) (pad_zeros zero R C a).
Proof.
  unfold pad_zeros. split.
  - rewrite length_take, length_app, length_replicate. lia.
  - apply Forall_take, Forall_app. split.
    + rewrite map_fmap. apply Forall_fmap, Forall_forall. intros row _. simpl.
      rewrite length_take, length_app, length_replicate. lia.
    + apply Forall_replicate. apply length_replicate.
Qed.

Lemma pad_zeros_row {A} (zero : A) R C (a : list (list A)) y :
  (y < R)%nat ->
  pad_zeros zero R C a !! y
  = Some (match a !! y with
          | Some row => take C (row ++ replicate C zero)
          | None => replicate C zero
          end).
Proof.
  intros Hy. unfold pad_zeros. rewrite lookup_take_lt by done.
  rewrite lookup_app, map_fmap, list_lookup_fmap, length_fmap.
  destruct (a !! y) as [row|] eqn:E; simpl; [done|].
  apply lookup_replicate. split; [done|].
  apply lookup_ge_None in E. lia.
Qed.

Lemma pad_zeros_cell {A} (zero : A) R C (a : list (list A)) y x :
  (y < R)%nat -> (x < C)%nat ->
  cell_at (pad_zeros zero R C a) y x = Some (default zero (cell_at a y x)).
Proof.
  intros Hy Hx. unfold cell_at. rewrite pad_zeros_row by done. simpl.
  destruct (a !! y) as [row|]; simpl.
  - rewrite lookup_take_lt by done. rewrite lookup_app.
    destruct (row !! x) as [v|] eqn:E; simpl; [done|].
    apply lookup_replicate. split; [done|].
    apply lookup_ge_None in E. lia.
  - apply lookup_replicate. by split.
Qed.

Lemma slice2_cell {A} (a : list (list A)) i n j m r c :
  (r < n)%nat -> (c < m)%nat ->
  cell_at (slice2 i n j m a) r c = cell_at a (i + r) (j + c).
Proof.
  intros Hr Hc. unfold cell_at, slice2.
  rewrite map_fmap, list_lookup_fmap, lookup_take_lt, lookup_drop by done.
  destruct (a !! (i + r)%nat) as [row|]; simpl; [|done].
  by rewrite lookup_take_lt, lookup_drop.
Qed.

Lemma slice2_is_8x8 {A} (a : list (list A)) i j R C :
  length a = R -> Forall (fun row => length row = C) a ->
  (i + 8 <= R)%nat -> (j + 8 <= C)%nat ->
  is_8x8 (slice2 i 8 j 8 a).
Proof.
  intros Hl Hr Hi Hj. unfold slice2. split.
  - rewrite map_fmap, length_fmap, length_take, length_drop. lia.
  - rewrite map_fmap. apply Forall_fmap, Forall_take, Forall_drop.
    eapply Forall_impl; [exact Hr|]. intros row Hrow. unfold compose. cbv beta in *.
    rewrite length_take, length_drop. lia.
Qed.

Lemma py_range0_mul n b :
  (0 < b)%nat -> py_range0 (n * b) b = (fun k => (k * b)%nat) <$> seq 0 n.
Proof.
  intros Hb. unfold py_range0. rewrite map_fmap. do 2 f_equal.
  replace (n * b + b - 1)%nat with ((b - 1) + n * b)%nat by lia.
  rewrite Nat.div_add by lia. rewrite Nat.div_small by lia. done.
Qed.

Lemma blockify_unfold (H W : Z) (channel : list (list float32)) :
  let nH := Z.to_nat ((H + 8 - 1) / 8) in
  let nW := Z.to_nat ((W + 8 - 1) / 8) in
  _blockify H W channel 8
  = (a ← seq 0 nH; b ← seq 0 nW;
     [((a * 8)%nat, (b * 8)%nat,
       slice2 (a * 8) 8 (b * 8) 8
              (pad_zeros f32_zero (nH * 8) (nW * 8) channel))]).
Proof.
  cbv zeta. unfold _blockify.
  assert (Hn : forall x, Z.to_nat (x * 8) = (Z.to_nat x * 8)%nat).
  { intros x. destruct (Z_le_gt_dec 0 x); [by rewrite Z2Nat.inj_mul by lia|].
    rewrite !Z2Nat.nonpos by lia. done. }
  rewrite !Hn. change (Z.to_nat 8) with 8%nat.
  rewrite !py_range0_mul by lia.
  set (nH := Z.to_nat ((H + 8 - 1) / 8)).
  set (nW := Z.to_nat ((W + 8 - 1) / 8)).
  generalize (pad_zeros f32_zero (nH * 8) (nW * 8) channel). intros padded.
  generalize (seq 0 nH). intros la. induction la as [|a la IH]; [done|].
  rewrite fmap_cons, !bind_cons, IH. f_equal.
  generalize (seq 0 nW). intros lb. induction lb as [|b lb IHb]; [done|].
  by rewrite fmap_cons, !bind_cons, IHb.
Qed.

Lemma length_bind_const {A B} (f : A -> list B) (l : list A) n :
  (forall x, length (f x) = n) -> length (l ≫= f) = (length l * n)%nat.
Proof.
  intros Hf. induction l as [|x l IH]; [done|].
  rewrite bind_cons, length_app, IH, Hf. simpl. lia.
Qed.

Lemma blockify_length (H W : Z) (channel : list (list float32)) :
  length (_blockify H W channel 8)
  = (Z.to_nat ((H + 8 - 1) / 8) * Z.to_nat ((W + 8 - 1) / 8))%nat.
Proof.
  rewrite blockify_unfold.
  rewrite (length_bind_const _ _ (Z.to_nat ((W + 8 - 1) / 8))), length_seq; [done|].
  intros a. rewrite (length_bind_const _ _ 1), length_seq; [lia|done].
Qed.

(** X6. [_blockify] with block size 8 yields, in row-major order, one
    block per 8x8 tile of the image padded up to multiples of 8:
    ceil(H/8) * ceil(W/8) blocks at the offsets (8a, 8b); each block is
    8x8 and holds the channel's samples, with zeros outside the channel. *)
Theorem blockify_blocks (H W : Z) (channel : list (list float32)) :
  let nH := Z.to_nat ((H + 8 - 1) / 8) in
  let nW := Z.to_nat ((W + 8 - 1) / 8) in
  (fun '(i, j, _) => (i, j)) <$> _blockify H W channel 8
  = (a ← seq 0 nH; b ← seq 0 nW; [((a * 8)%nat, (b * 8)%nat)]) /\
  length (_blockify H W channel 8) = (nH * nW)%nat /\
  forall i j blk,
    (i, j, blk) ∈ _blockify H W channel 8 ->
    is_8x8 blk /\
    forall r c, (r < 8)%nat -> (c < 8)%nat ->
      cell_at blk r c
      = Some (default f32_zero (cell_at channel (i + r) (j + c))).
Proof.
  cbv zeta. rewrite blockify_unfold.
  set (nH := Z.to_nat ((H + 8 - 1) / 8)).
  set (nW := Z.to_nat ((W + 8 - 1) / 8)).
  split; [|split].
  - generalize (pad_zeros f32_zero (nH * 8) (nW * 8) channel). intros padded.
    generalize (seq 0 nH). intros la. induction la as [|a la IH]; [done|].
    rewrite !bind_cons, fmap_app, IH. f_equal.
    generalize (seq 0 nW). intros lb. induction lb as [|b lb IHb]; [done|].
    by rewrite !bind_cons, fmap_app, IHb.
  - rewrite (length_bind_const _ _ nW), length_seq; [done|].
    intros a. rewrite (length_bind_const _ _ 1), length_seq; [lia|done].
  - intros i j blk Hin.
    apply list_elem_of_bind in Hin as (a & Hin & Ha).
    apply list_elem_of_bind in Hin as (b & Hin & Hb).
    apply list_elem_of_singleton in Hin. injection Hin as -> -> ->.
    apply elem_of_seq in Ha, Hb.
    destruct (pad_zeros_shape f32_zero (nH * 8) (nW * 8) channel) as [Hl Hr].
    split.
    + eapply slice2_is_8x8; [exact Hl|exact Hr|lia|lia].
    + intros r c Hr' Hc'. rewrite slice2_cell by done.
      apply pad_zeros_cell; lia.
Qed.

(** X8. Cropping undoes padding: [_unblockify] applied to a channel of
    [H] rows of [W] samples that was padded with zeros to a larger buffer
    gives the channel back. *)
Theorem unblockify_pad_zeros {A} (zero : A) (R C H W : nat) (channel : list (list A)) :
  length channel = H -> Forall (fun row => length row = W) channel ->
  (H <= R)%nat -> (W <= C)%nat ->
  _unblockify (pad_zeros zero R C channel) (Z.of_nat H) (Z.of_nat W) = channel.
Proof.
  intros Hl Hr HR HC. unfold _unblockify. rewrite !Nat2Z.id.
  apply list_eq. intros y. rewrite map_fmap, list_lookup_fmap, lookup_take.
  destruct (decide (y < H)%nat) as [Hy|Hy].
  - rewrite pad_zeros_row by lia.
    destruct (lookup_lt_is_Some_2 channel y ltac:(lia)) as [row Hrow].
    rewrite Hrow. simpl. f_equal.
    rewrite Forall_forall in Hr.
    pose proof (Hr row ltac:(by eapply list_elem_of_lookup_2)) as Hw.
    rewrite take_take, Nat.min_l by lia.
    rewrite take_app_le by lia. apply take_ge. lia.
  - simpl. symmetry. apply lookup_ge_None. lia.
Qed.

Lemma unblockify_pad_zeros_witness :
  _unblockify (pad_zeros 0 8 8 [[1; 2; 3]; [4; 5; 6]]) (Z.of_nat 2) (Z.of_nat 3)
  = [[1; 2; 3]; [4; 5; 6]].
Proof.
  apply (unblockify_pad_zeros 0 8 8 2 3); [reflexivity | repeat constructor | lia | lia].
Defined.

(** X7. No sample is lost by [_blockify]: the sample at row [y], column
    [x] of the channel is the cell (y mod 8, x mod 8) of the block at
    offset (8 * (y / 8), 8 * (x / 8)). *)
Theorem blockify_covers (H W : Z) (channel : list (list float32)) (y x : nat) v :
  Z.of_nat y < H -> Z.of_nat x < W ->
  cell_at channel y x = Some v ->
  exists blk,
    ((y / 8 * 8)%nat, (x / 8 * 8)%nat, blk) ∈ _blockify H W channel 8 /\
    cell_at blk (y mod 8) (x mod 8) = Some v.
Proof.
  intros Hy Hx Hv. rewrite blockify_unfold.
  set (nH := Z.to_nat ((H + 8 - 1) / 8)).
  set (nW := Z.to_nat ((W + 8 - 1) / 8)).
  assert (HnH : (y / 8 < nH)%nat).
  { unfold nH. apply Nat2Z.inj_lt. rewrite Nat2Z.inj_div, Z2Nat.id.
    - apply Z.div_lt_upper_bound; [lia|].
      pose proof (Z.mul_div_le (H + 8 - 1) 8). pose proof (Z.mod_pos_bound (H + 8 - 1) 8).
      pose proof (Z.div_mod (H + 8 - 1) 8). lia.
    - apply Z.div_pos; lia. }
  assert (HnW : (x / 8 < nW)%nat).
  { unfold nW. apply Nat2Z.inj_lt. rewrite Nat2Z.inj_div, Z2Nat.id.
    - apply Z.div_lt_upper_bound; [lia|].
      pose proof (Z.mod_pos_bound (W + 8 - 1) 8).
      pose proof (Z.div_mod (W + 8 - 1) 8). lia.
    - apply Z.div_pos; lia. }
  eexists. split.
  - apply list_elem_of_bind. exists (y / 8)%nat. split; [|apply elem_of_seq; lia].
    apply list_elem_of_bind. exists (x / 8)%nat. split; [|apply elem_of_seq; lia].
    apply list_elem_of_singleton. reflexivity.
  - pose proof (Nat.mod_upper_bound y 8). pose proof (Nat.mod_upper_bound x 8).
    rewrite slice2_cell by lia.
    replace (y / 8 * 8 + y mod 8)%nat with y
      by (pose proof (Nat.div_mod_eq y 8); lia).
    replace (x / 8 * 8 + x mod 8)%nat with x
      by (pose proof (Nat.div_mod_eq x 8); lia).
    rewrite pad_zeros_cell
      by (pose proof (Nat.div_mod_eq y 8); pose proof (Nat.div_mod_eq x 8); lia).
    by rewrite Hv.
Qed.

Lemma blockify_covers_witness :
  exists blk,
    ((9 / 8 * 8)%nat, (2 / 8 * 8)%nat, blk)
      ∈ _blockify 10 3 (replicate 10 (replicate 3 (f32_of_Z 5))) 8 /\
    cell_at blk (9 mod 8) (2 mod 8) = Some (f32_of_Z 5).
Proof.
  apply (blockify_covers 10 3 _ 9 2); [lia | lia | reflexivity].
Defined.

(** ** The coefficient arrays of the encoder *)

Lemma result_mapM_Ok {A B} (f : A -> result B) (l : list A) ys :
  result_mapM f l = Ok ys -> Forall2 (fun x y => f x = Ok y) l ys.
Proof.
  revert ys. induction l as [|x l IH]; intros ys; simpl.
  - intros [= <-]. constructor.
  - destruct (f x) as [y|] eqn:E; simpl; [|done].
    destruct (result_mapM f l) as [ys'|]; simpl; [|done].
    intros [= <-]. constructor; [done|]. by apply IH.
Qed.

Section EncodeChannel.

Context (lib : Libs).

Lemma encode_block_Ok Q blk coefs :
  encode_block lib Q blk = Ok coefs ->
  length coefs = 64%nat /\ Forall (fun c => - 32768 <= c <= 32767) coefs.
Proof.
  unfold encode_block. intros H. apply take_idx_spec in H as [Hl Hk].
  split; [by rewrite Hl|].
  apply Forall_lookup. intros k c Hc.
  destruct (lookup_lt_is_Some_2 _ZIGZAG_POS k) as [i Hi].
  { rewrite <- Hl. by eapply lookup_lt_Some. }
  destruct (Hk k i Hi) as [Hg _]. rewrite Hc in Hg. symmetry in Hg.
  revert Hg. generalize (_dct2 lib (if decide (shape2 blk = (8, 8)%nat)
                                     then blk else pad_zeros f32_zero 8 8 blk)).
  intros d Hg.
  assert (Hall : Forall (fun c => - 32768 <= c <= 32767) (flatten (quantize Q d))).
  { unfold flatten, quantize. apply Forall_concat.
    apply Forall_zip_with_all. intros r1 r2.
    apply Forall_zip_with_all. intros x y. apply astype_int16_range. }
  rewrite Forall_lookup in Hall. by eapply Hall.
Qed.

(** X9. When [encode_channel] returns a coefficient array, the image has
    at least one row and one column, the array has one row per block,
    ceil(H/8) * ceil(W/8) of them, and each row holds 64 values in the int16
    range. On an image with no rows or no columns [np.stack] of the empty
    block list raises [ValueError]. *)
Theorem encode_channel_shape (Q : list (list ifloat)) (H W : Z)
    (ch_res : list (list float32)) :
  (forall coefs,
     encode_channel lib Q H W ch_res = Ok coefs ->
     1 <= H /\ 1 <= W /\
     Z.of_nat (length coefs) = ((H + 8 - 1) / 8) * ((W + 8 - 1) / 8) /\
     Forall (fun row => length row = 64%nat /\
                        Forall (fun c => - 32768 <= c <= 32767) row) coefs) /\
  (H <= 0 \/ W <= 0 -> encode_channel lib Q H W ch_res = Raise ValueError).
Proof.
  pose proof (blockify_length H W ch_res) as Hlen.
  split.
  - intros coefs. unfold encode_channel.
    destruct (result_mapM _ _) as [ys|] eqn:E; simpl; [|done].
    apply result_mapM_Ok in E.
    destruct ys as [|y ys]; simpl; [done|]. intros [= <-].
    pose proof (Forall2_length _ _ _ E) as Hl. rewrite Hlen in Hl.
    simpl in Hl.
    assert (H1 : 0 < (H + 8 - 1) / 8) by (destruct (Z_lt_le_dec 0 ((H + 8 - 1) / 8));
      [done|rewrite Z2Nat.nonpos in Hl by done; lia]).
    assert (H2 : 0 < (W + 8 - 1) / 8) by (destruct (Z_lt_le_dec 0 ((W + 8 - 1) / 8));
      [done|rewrite (Z2Nat.nonpos ((W + 8 - 1) / 8)) in Hl by done; lia]).
    split; [|split; [|split]].
    + destruct (Z_lt_le_dec H 1); [|done].
      assert ((H + 8 - 1) / 8 <= 0); [|lia].
      apply Z.lt_succ_r. apply Z.div_lt_upper_bound; lia.
    + destruct (Z_lt_le_dec W 1); [|done].
      assert ((W + 8 - 1) / 8 <= 0); [|lia].
      apply Z.lt_succ_r. apply Z.div_lt_upper_bound; lia.
    + change (length (y :: ys)) with (S (length ys)). rewrite <- Hl. lia.
    + apply Forall_forall. intros row Hrow.
      apply list_elem_of_lookup in Hrow as [k Hk].
      destruct (Forall2_lookup_r _ _ _ _ _ E Hk) as ([[i j] blk] & _ & Hblk).
      by apply encode_block_Ok in Hblk.
  - intros Hz. unfold encode_channel.
    assert (Hnil : _blockify H W ch_res 8 = []).
    { apply length_zero_iff_nil. rewrite Hlen.
      destruct Hz as [Hz|Hz].
      - assert ((H + 8 - 1) / 8 <= 0)
          by (apply Z.lt_succ_r; apply Z.div_lt_upper_bound; lia).
        rewrite Z2Nat.nonpos by done. done.
      - assert ((W + 8 - 1) / 8 <= 0)
          by (apply Z.lt_succ_r; apply Z.div_lt_upper_bound; lia).
        rewrite (Z2Nat.nonpos ((W + 8 - 1) / 8)) by done. lia. }
    by rewrite Hnil.
Qed.

End EncodeChannel.

(** ** The output path *)

Lemma before_last_dot_no_dot s : has_dot s = false -> before_last_dot s = None.
Proof.
  induction s as [|c s IH]; [done|]. simpl.
  intros H. apply orb_false_elim in H as [Hc Hs].
  rewrite IH by done. apply bool_decide_eq_false in Hc.
  by rewrite decide_False.
Qed.

Lemma before_last_dot_app stem ext :
  has_dot ext = false ->
  before_last_dot (stem +:+ String "."%char ext) = Some stem.
Proof.
  intros H. induction stem as [|c stem IH]; simpl.
  - by rewrite before_last_dot_no_dot.
  - by rewrite IH.
Qed.

Lemma before_last_dot_Some s p :
  before_last_dot s = Some p -> exists ext, s = (p +:+ String "."%char ext)%string.
Proof.
  revert p. induction s as [|c s IH]; intros p; [done|]. simpl.
  destruct (before_last_dot s) as [p'|].
  - intros [= <-]. destruct (IH p' eq_refl) as [ext ->]. by exists ext.
  - destruct (decide (c = "."%char)) as [->|]; [|done].
    intros [= <-]. by exists s.
Qed.

Lemma string_app_inv_head (p a b : string) :
  (p +:+ a = p +:+ b)%string -> a = b.
Proof. induction p as [|c p IH]; simpl; [done|]. intros [=]. auto. Qed.

Lemma string_app_length (a b : string) :
  String.length (a +:+ b) = (String.length a + String.length b)%nat.
Proof. induction a as [|c a IH]; simpl; [done|]. by rewrite IH. Qed.

Lemma out_path_of_ne path : out_path_of path <> path.
Proof.
  unfold out_path_of. destruct (before_last_dot path) as [p|] eqn:E; simpl.
  - apply before_last_dot_Some in E as [ext ->].
    intros H. apply string_app_inv_head in H. discriminate.
  - intros H. apply (f_equal String.length) in H.
    rewrite string_app_length in H. simpl in H. lia.
Qed.

(** X10. The output path is cut at the last dot of the whole path, not at
    an extension: the part before the last dot, followed by "_mc2.mcmp2";
    a path without a dot keeps all of it.  It never equals the input path. *)
Theorem out_path_of_rsplit (path : string) :
  (forall stem ext, path = (stem +:+ "." +:+ ext)%string -> has_dot ext = false ->
     out_path_of path = (stem +:+ "_mc2.mcmp2")%string) /\
  (has_dot path = false -> out_path_of path = (path +:+ "_mc2.mcmp2")%string) /\
  out_path_of path <> path.
Proof.
  split; [|split].
  - intros stem ext -> H. unfold out_path_of.
    change ("." +:+ ext)%string with (String "."%char ext).
    by rewrite before_last_dot_app.
  - intros H. unfold out_path_of. by rewrite before_last_dot_no_dot.
  - apply out_path_of_ne.
Qed.

(** A directory name with a dot and a file name without one: the output
    lands beside the directory. *)
Example out_path_of_examples :
  out_path_of "photo.png" = "photo_mc2.mcmp2"%string /\
  out_path_of "a.b.png" = "a.b_mc2.mcmp2"%string /\
  out_path_of "shots.v2/photo" = "shots_mc2.mcmp2"%string /\
  out_path_of "photo" = "photo_mc2.mcmp2"%string.
Proof. repeat split. Qed.

(** ** More on [compress_image] and the file system *)

Section CompressImageMore.

Context (lib : Libs).

Lemma write_container_twice out_path w h down quality base payload fs :
  write_container out_path w h down quality base payload
    (write_container out_path w h down quality base payload fs).1
  = write_container out_path w h down quality base payload fs.
Proof.
  unfold write_container.
  destruct (_pack_header _ _ _ _ _ _ _) as [header|]; simpl;
    [|by rewrite insert_insert_eq].
  destruct (pack_field 8 _) as [plen|]; simpl; by rewrite !insert_insert_eq.
Qed.

Lemma write_container_other out_path w h down quality base payload fs p :
  p <> out_path ->
  (write_container out_path w h down quality base payload fs).1 !! p = fs !! p.
Proof.
  intros Hp. unfold write_container.
  destruct (_pack_header _ _ _ _ _ _ _) as [header|]; simpl;
    [|by rewrite lookup_insert_ne].
  destruct (pack_field 8 _) as [plen|]; simpl; by rewrite !lookup_insert_ne.
Qed.

Lemma compress_image_input path quality down fs :
  (compress_image lib path quality down fs).1 !! path = fs !! path.
Proof.
  unfold compress_image.
  destruct (fs !! path) as [data|] eqn:Efs; [|done].
  destruct (im ← Image_open lib data; _) as [[im [base payload]]|]; [|done].
  destruct (im_size im) as [orig_w orig_h].
  pose proof (write_container_other (out_path_of path) orig_w orig_h down quality
                base payload fs path) as Hw.
  destruct (write_container _ _ _ _ _ _ _ _) as [fs1 [[]|e]]; simpl in *;
    rewrite Hw; auto using not_eq_sym, out_path_of_ne.
Qed.

(** X11. [compress_image] never changes the file it reads: whatever the
    outcome, the input path holds the same bytes afterwards (the output
    path is a different one), and on success [original_bytes] is the size of
    that input. *)
Theorem compress_image_keeps_input path quality down
    (fs fs' : gmap string (list byte)) r :
  compress_image lib path quality down fs = (fs', r) ->
  fs' !! path = fs !! path /\
  forall out_path stats, r = Ok (out_path, stats) ->
    out_path <> path /\
    exists data, fs !! path = Some data /\
                 original_bytes stats = Z.of_nat (length data).
Proof.
  intros Hc. split.
  - pose proof (compress_image_input path quality down fs) as H.
    by rewrite Hc in H.
  - intros out_path stats ->. revert Hc. unfold compress_image.
    destruct (fs !! path) as [data|] eqn:Efs; [|intros [=]].
    destruct (im ← Image_open lib data; _) as [[im [base payload]]|]; [|intros [=]].
    destruct (im_size im) as [orig_w orig_h].
    pose proof (write_container_other (out_path_of path) orig_w orig_h down quality
                  base payload fs path) as Hw.
    destruct (write_container _ _ _ _ _ _ _ _) as [fs1 [[]|e]]; [|intros [=]].
    simpl in Hw. unfold file_len.
    rewrite Hw, Efs by auto using not_eq_sym, out_path_of_ne. simpl.
    destruct (fs1 !! out_path_of path); simpl; [|intros [=]].
    intros [= <- <- <-]. split; [apply out_path_of_ne|]. by exists data.
Qed.

(** X12. Running [compress_image] again with the same arguments, on the
    file system the first run left, gives the same result and leaves the
    file system as it is: the second run overwrites the output with the
    same bytes. *)
Theorem compress_image_idempotent path quality down (fs : gmap string (list byte)) :
  compress_image lib path quality down (compress_image lib path quality down fs).1
  = compress_image lib path quality down fs.
Proof.
  pose proof (compress_image_input path quality down fs) as Hin.
  destruct (compress_image lib path quality down fs) as [fs' r] eqn:Hc.
  simpl in *. revert Hc. unfold compress_image. rewrite Hin.
  destruct (fs !! path) as [data|] eqn:Efs; [|by intros [= <- <-]].
  destruct (im ← Image_open lib data; _) as [[im [base payload]]|] eqn:E;
    [|by intros [= <- <-]].
  destruct (im_size im) as [orig_w orig_h] eqn:Esz.
  pose proof (write_container_twice (out_path_of path) orig_w orig_h down quality
                base payload fs) as Hw.
  destruct (write_container _ _ _ _ _ _ _ fs) as [fs1 r1] eqn:Ew.
  simpl in Hw.
  destruct r1 as [[]|e]; intros [= <- <-]; rewrite Hw; reflexivity.
Qed.

End CompressImageMore.

Lemma compress_image_keeps_input_witness :
  (<["in_mc2.mcmp2"%string := Toy.container_2x2]> Toy.fs_2x2) !! "in.png"%string
  = Toy.fs_2x2 !! "in.png"%string /\
  forall out_path stats,
    Ok ("in_mc2.mcmp2"%string, mkEncStats 16 7 396 436 2 2 2 50) = Ok (out_path, stats) ->
    out_path <> "in.png"%string /\
    exists data, Toy.fs_2x2 !! "in.png"%string = Some data /\
                 original_bytes stats = Z.of_nat (length data).
Proof.
  apply (compress_image_keeps_input Toy.libs "in.png" 50 2 Toy.fs_2x2).
  vm_compute. reflexivity.
Defined.

Section CompressImageRequires.

Context (lib : Libs).

Lemma quant_matrix_Ok_nonzero quality Q : quant_matrix quality = Ok Q -> quality <> 0.
Proof. intros H ->. vm_compute in H. discriminate. Qed.

Lemma encode_channel_Ok_dims Q H W ch coefs :
  encode_channel lib Q H W ch = Ok coefs -> 1 <= H /\ 1 <= W.
Proof.
  unfold encode_channel.
  destruct (result_mapM _ _) as [ys|] eqn:E; simpl; [|done].
  apply result_mapM_Ok in E. apply Forall2_length in E.
  rewrite blockify_length in E.
  destruct ys as [|y ys]; simpl; [done|]. intros _. simpl in E.
  split.
  - destruct (Z_lt_le_dec H 1); [|done].
    assert ((H + 8 - 1) / 8 <= 0)
      by (apply Z.lt_succ_r; apply Z.div_lt_upper_bound; lia).
    rewrite Z2Nat.nonpos in E by done. done.
  - destruct (Z_lt_le_dec W 1); [|done].
    assert ((W + 8 - 1) / 8 <= 0)
      by (apply Z.lt_succ_r; apply Z.div_lt_upper_bound; lia).
    rewrite (Z2Nat.nonpos ((W + 8 - 1) / 8)) in E by done. lia.
Qed.

Lemma encode_layers_Ok im quality down base payload :
  encode_layers lib im quality down = Ok (base, payload) ->
  down <> 0 /\ quality <> 0 /\ 1 <= (im_size im).1 /\ 1 <= (im_size im).2.
Proof.
  unfold encode_layers. destruct (im_size im) as [orig_w orig_h]. intros H.
  destruct (decide (down = 0)) as [|Hd]; [done|].
  inv_result H.
  match goal with
  | E : quant_matrix quality = Ok _ |- _ => apply quant_matrix_Ok_nonzero in E
  end.
  match goal with
  | E : encode_channel _ _ _ _ (channel 0 _) = Ok _ |- _ =>
      apply encode_channel_Ok_dims in E
  end.
  simpl. tauto.
Qed.

(** X13. What a successful [compress_image] implies about its arguments
    and the image: [quality] and [down] lie in 1..255 (0 divides by zero,
    and the header gives each one byte), the image has at least one row and
    one column and fewer than 2^32 of each, and both layers are shorter
    than 2^64 bytes. *)
Theorem compress_image_requires path quality down
    (fs fs' : gmap string (list byte)) out_path stats :
  compress_image lib path quality down fs = (fs', Ok (out_path, stats)) ->
  1 <= quality <= 255 /\ 1 <= down <= 255 /\
  1 <= enc_w stats < 2 ^ 32 /\ 1 <= enc_h stats < 2 ^ 32 /\
  0 <= base_bytes stats < 2 ^ 64 /\ 0 <= payload_bytes stats < 2 ^ 64.
Proof.
  intros Hc.
  apply compress_image_Ok in Hc
    as (data & im & base & payload & header & plen & _ & _ & El & Eh & Ep
        & _ & _ & -> & -> & _ & -> & -> & _ & _).
  apply encode_layers_Ok in El as (Hd & Hq & Hw & Hh).
  apply pack_header_Ok in Eh as [(Hw' & Hh' & _ & _ & Hd' & Hq' & Hl) _].
  apply pack_field_Ok in Ep as [Hp _].
  change (256 ^ Z.of_nat 8) with (2 ^ 64) in Hp. lia.
Qed.

End CompressImageRequires.

Lemma compress_image_requires_witness :
  1 <= 50 <= 255 /\ 1 <= 2 <= 255 /\
  1 <= enc_w (mkEncStats 16 7 396 436 2 2 2 50) < 2 ^ 32 /\
  1 <= enc_h (mkEncStats 16 7 396 436 2 2 2 50) < 2 ^ 32 /\
  0 <= base_bytes (mkEncStats 16 7 396 436 2 2 2 50) < 2 ^ 64 /\
  0 <= payload_bytes (mkEncStats 16 7 396 436 2 2 2 50) < 2 ^ 64.
Proof.
  apply (compress_image_requires Toy.libs "in.png" 50 2 Toy.fs_2x2
           (<["in_mc2.mcmp2"%string := Toy.container_2x2]> Toy.fs_2x2)
           "in_mc2.mcmp2").
  vm_compute. reflexivity.
Defined.


(** ** More on the decoder *)

Lemma unpack_header_Ok_rest f hdr rest :
  _unpack_header f = Ok (hdr, rest) -> rest = drop 25 f /\ (25 <= length f)%nat.
Proof.
  intros H. assert (Hc : take 5 f = MAGIC /\ (25 <= length f)%nat)
    by (apply unpack_header_Ok_cond; eauto).
  split; [|tauto]. rewrite unpack_header_unfold in H.
  destruct (decide (take 5 f = MAGIC)); [|done].
  destruct (unpack_fields _); simpl in H; [|done].
  injection H as _ <-. by rewrite drop_drop.
Qed.

Lemma unpack_header_app f extra hdr rest :
  _unpack_header f = Ok (hdr, rest) ->
  _unpack_header (f ++ extra) = Ok (hdr, rest ++ extra).
Proof.
  intros H. destruct (unpack_header_Ok_rest _ _ _ H) as [-> Hl].
  rewrite unpack_header_unfold in *.
  rewrite take_app_le by lia.
  destruct (decide (take 5 f = MAGIC)); [|done].
  rewrite (drop_app_le f extra 5) by lia.
  rewrite take_app_le by (rewrite length_drop; lia).
  destruct (unpack_fields _); simpl in *; [|done].
  injection H as ->. do 2 f_equal.
  rewrite drop_app_le by (rewrite length_drop; lia). by rewrite drop_drop.
Qed.

Lemma be_value_take_range n bs : 0 <= be_value (take n bs) < 256 ^ Z.of_nat n.
Proof.
  pose proof (be_value_range (take n bs)) as H.
  assert (256 ^ Z.of_nat (length (take n bs)) <= 256 ^ Z.of_nat n).
  { apply Z.pow_le_mono_r; [lia|]. rewrite length_take. lia. }
  lia.
Qed.

Lemma unpack_header_ranges f hdr rest :
  _unpack_header f = Ok (hdr, rest) ->
  0 <= h_w hdr < 2 ^ 32 /\ 0 <= h_h hdr < 2 ^ 32 /\ 0 <= h_channels hdr < 256 /\
  0 <= h_block_size hdr < 256 /\ 0 <= h_down hdr < 256 /\
  0 <= h_quality hdr < 256 /\ 0 <= h_base_len hdr < 2 ^ 64.
Proof.
  rewrite unpack_header_unfold. destruct (decide _); [|done].
  unfold unpack_fields. destruct (decide _); [|done].
  simpl. intros [= <- _].
  cbn [h_w h_h h_channels h_block_size h_down h_quality h_base_len].
  repeat split; try apply (be_value_take_range 4); try apply (be_value_take_range 1);
    apply (be_value_take_range 8).
Qed.

(** ** Reads of a size taken from the file *)

Lemma f_read_int_Ok n (f : list byte) :
  0 <= n < 2 ^ 63 ->
  f_read_int n f = Ok (take (Z.to_nat n) f, drop (Z.to_nat n) f).
Proof.
  intros Hn. unfold f_read_int, f_read.
  rewrite decide_False by lia. by rewrite decide_False by lia.
Qed.

Lemma f_read_int_overflow n (f : list byte) :
  2 ^ 63 <= n -> f_read_int n f = Raise OverflowError.
Proof. intros Hn. unfold f_read_int. by rewrite decide_True. Qed.

Lemma unpack_Q_Ok b v : unpack_Q b = Ok v -> length b = 8%nat /\ 0 <= v < 2 ^ 64.
Proof.
  unfold unpack_Q. destruct (decide (length b = 8%nat)) as [Hl|]; [|done].
  intros [= <-]. split; [done|].
  pose proof (be_value_range b) as H. rewrite Hl in H. exact H.
Qed.

Section ReconstructOk.

Context (lib : Libs).

(** Every step of a decode that reaches the reconstructed array. *)
Lemma reconstruct_Ok (f : list byte) hdr recon :
  reconstruct lib f = Ok (hdr, recon) ->
  exists rest payload_len arr coef_r coef_g coef_b Q rec_r rec_g rec_b
         base_img up_base,
    let base_len := Z.to_nat (h_base_len hdr) in
    let bs := h_block_size hdr in
    _unpack_header f = Ok (hdr, rest) /\
    h_base_len hdr < 2 ^ 63 /\
    unpack_Q (take 8 (drop base_len rest)) = Ok payload_len /\
    payload_len < 2 ^ 63 /\
    zlib_decompress lib (take (Z.to_nat payload_len) (drop 8 (drop base_len rest)))
    = Ok arr /\
    np_load lib arr = Ok (coef_r, coef_g, coef_b) /\
    quant_matrix (h_quality hdr) = Ok Q /\
    bs <> 0 /\
    rebuild_channel lib Q (h_w hdr) (h_h hdr) bs
      ((h_w hdr + bs - 1) / bs) ((h_h hdr + bs - 1) / bs) coef_r = Ok rec_r /\
    rebuild_channel lib Q (h_w hdr) (h_h hdr) bs
      ((h_w hdr + bs - 1) / bs) ((h_h hdr + bs - 1) / bs) coef_g = Ok rec_g /\
    rebuild_channel lib Q (h_w hdr) (h_h hdr) bs
      ((h_w hdr + bs - 1) / bs) ((h_h hdr + bs - 1) / bs) coef_b = Ok rec_b /\
    Image_open lib (take base_len rest) = Ok base_img /\
    Image_resize_BICUBIC lib base_img (h_w hdr, h_h hdr) = Ok up_base /\
    im_size up_base = (h_w hdr, h_h hdr) /\
    recon = zip_with (zip_with (fun '(u1, u2, u3) '(r1, r2, r3) =>
                        (recon_sample u1 r1, recon_sample u2 r2, recon_sample u3 r3)))
                     (asarray_f32 up_base) (stack3 rec_r rec_g rec_b).
Proof.
  intros H. unfold reconstruct in H.
  destruct (_unpack_header f) as [[hdr' rest]|] eqn:Hu; [|done].
  cbn [mbind result_bind] in H.
  pose proof (unpack_header_ranges _ _ _ Hu) as (_ & _ & _ & _ & _ & _ & Hbl).
  destruct (Z_lt_le_dec (h_base_len hdr') (2 ^ 63)) as [Hb|Hb];
    [|by rewrite f_read_int_overflow in H by done].
  rewrite f_read_int_Ok in H by lia. cbn [mbind result_bind] in H.
  unfold f_read in H.
  destruct (unpack_Q _) as [payload_len|] eqn:Hq; [|done].
  cbn [mbind result_bind] in H.
  pose proof (unpack_Q_Ok _ _ Hq) as [_ Hpl].
  destruct (Z_lt_le_dec payload_len (2 ^ 63)) as [Hp|Hp];
    [|by rewrite f_read_int_overflow in H by done].
  rewrite f_read_int_Ok in H by lia. cbn [mbind result_bind] in H.
  inv_result H. injection H as <- <-.
  destruct (decide (h_block_size hdr' = 0)) as [|Hbs]; [done|].
  destruct (decide (im_size _ = _)) as [Hsz|]; [|done].
  eexists rest, payload_len, _, _, _, _, _, _, _, _, _, _. cbv zeta.
  repeat (split; [first [eassumption | reflexivity]|]). reflexivity.
Qed.

(** The result of [decompress_file] is the reconstructed array saved as a
    PNG, with the statistics read from the header. *)
Lemma decompress_file_Ok (f : list byte) png st :
  decompress_file lib f = Ok (png, st) ->
  exists hdr recon,
    reconstruct lib f = Ok (hdr, recon) /\
    Image_save_PNG lib (mkImage (h_w hdr, h_h hdr) recon) = Ok png /\
    st = mkDecStats (h_w hdr) (h_h hdr) (h_down hdr) (h_quality hdr)
                    (Z.of_nat (length png)).
Proof.
  unfold decompress_file. intros H.
  destruct (reconstruct lib f) as [[hdr recon]|]; [|done].
  cbn [mbind result_bind] in H.
  destruct (Image_save_PNG lib _) as [png'|] eqn:Es; [|done].
  cbn [mbind result_bind] in H. injection H as <- <-.
  by exists hdr, recon.
Qed.

End ReconstructOk.

Section DecodeMore.

Context (lib : Libs).

(** X14. [decompress_file] does not look past the payload: bytes appended
    to a container whose base layer, length field and payload are complete
    change nothing in the result. *)
Theorem decompress_file_ignores_trailing_bytes (f extra : list byte) hdr rest payload_len :
  _unpack_header f = Ok (hdr, rest) ->
  unpack_Q (take 8 (drop (Z.to_nat (h_base_len hdr)) rest)) = Ok payload_len ->
  (Z.to_nat (h_base_len hdr) + 8 + Z.to_nat payload_len <= length rest)%nat ->
  decompress_file lib (f ++ extra) = decompress_file lib f.
Proof.
  intros Hu Hq Hlen. unfold decompress_file. f_equal.
  unfold reconstruct. rewrite (unpack_header_app _ extra _ _ Hu), Hu.
  cbn [mbind result_bind].
  pose proof (unpack_header_ranges _ _ _ Hu) as (_ & _ & _ & _ & _ & _ & Hbl).
  pose proof (unpack_Q_Ok _ _ Hq) as [_ Hpl].
  destruct (Z_lt_le_dec (h_base_len hdr) (2 ^ 63)) as [Hb|Hb];
    [|by rewrite !f_read_int_overflow by done].
  rewrite !f_read_int_Ok by lia. cbn [mbind result_bind]. unfold f_read.
  rewrite !(take_app_le rest extra) by lia.
  rewrite !(drop_app_le rest extra) by lia.
  rewrite (take_app_le _ extra) by (rewrite length_drop; lia).
  rewrite Hq. cbn [mbind result_bind].
  destruct (Z_lt_le_dec payload_len (2 ^ 63)) as [Hp|Hp];
    [|by rewrite !f_read_int_overflow by done].
  rewrite !f_read_int_Ok by lia. cbn [mbind result_bind].
  rewrite (drop_app_le _ extra) by (rewrite length_drop; lia).
  rewrite (take_app_le _ extra) by (rewrite !length_drop; lia).
  reflexivity.
Qed.

(** X15. A container cut off before the end of the payload length field
    is rejected.  When the header parses, a [base_len] of [2^63] or more
    does not fit the size of a read and [fobj.read(base_len)] raises
    [OverflowError]; below that, the read is short without an error, and
    when fewer than [base_len + 8] bytes follow the header,
    [struct.unpack] of the length field raises [struct.error]. *)
Theorem decompress_file_truncated (f : list byte) hdr rest :
  _unpack_header f = Ok (hdr, rest) ->
  (2 ^ 63 <= h_base_len hdr -> decompress_file lib f = Raise OverflowError) /\
  (h_base_len hdr < 2 ^ 63 ->
   (length rest < Z.to_nat (h_base_len hdr) + 8)%nat ->
   decompress_file lib f = Raise StructError).
Proof.
  intros Hu.
  pose proof (unpack_header_ranges _ _ _ Hu) as (_ & _ & _ & _ & _ & _ & Hbl).
  unfold decompress_file, reconstruct. rewrite Hu. cbn [mbind result_bind].
  split.
  - intros Hb. by rewrite f_read_int_overflow by done.
  - intros Hb Hlen. rewrite f_read_int_Ok by lia. cbn [mbind result_bind].
    unfold f_read, unpack_Q.
    destruct (decide (length (take 8 _) = 8%nat)) as [Hc|Hc]; [|reflexivity].
    rewrite length_take, length_drop in Hc. lia.
Qed.

End DecodeMore.

Lemma decompress_file_ignores_trailing_bytes_witness :
  decompress_file Toy.libs (Toy.container_2x2 ++ [x00; x01])
  = decompress_file Toy.libs Toy.container_2x2.
Proof.
  eapply (decompress_file_ignores_trailing_bytes Toy.libs Toy.container_2x2).
  - vm_compute. reflexivity.
  - vm_compute. reflexivity.
  - apply Nat.leb_le. vm_compute. reflexivity.
Defined.

Lemma decompress_file_truncated_witness :
  decompress_file Toy.libs (take 30 Toy.container_2x2) = Raise StructError.
Proof.
  assert (Hu : _unpack_header (take 30 Toy.container_2x2)
               = Ok (mkHeader 2 2 3 8 2 50 7, drop 25 (take 30 Toy.container_2x2)))
    by (vm_compute; reflexivity).
  apply (proj2 (decompress_file_truncated Toy.libs _ _ _ Hu)).
  - reflexivity.
  - apply Nat.ltb_lt. vm_compute. reflexivity.
Defined.

(** The container of the 2x2 image with the top bit of its [base_len] field
    set: the header parses, and the read of the base layer overflows. *)
Example decompress_file_base_len_overflow :
  h_base_len <$> (fst <$> _unpack_header (<[17%nat := x80]> Toy.container_2x2))
  = Ok (2 ^ 63 + 7) /\
  decompress_file Toy.libs (<[17%nat := x80]> Toy.container_2x2) = Raise OverflowError.
Proof. split; vm_compute; reflexivity. Qed.
(** ** The decoder's block loop *)

Lemma transpose_is_8x8 {A} (a : list (list A)) : is_8x8 a -> is_8x8 (transpose a).
Proof.
  intros [Hl Hr].
  do 8 (destruct a as [|? a]; [discriminate|]). destruct a; [|discriminate].
  repeat match goal with H : Forall _ (_ :: _) |- _ => inversion H; clear H; subst end.
  repeat match goal with
         | H : length ?l = 8%nat |- _ =>
             do 8 (destruct l as [|? l]; [discriminate|]);
             destruct l; [clear H|discriminate]
         end.
  split; [reflexivity|]. repeat constructor.
Qed.

Lemma put_idx_Ok_length {A} n idx (v q : list A) :
  is_permutation_of n idx -> length v = n -> length q = n ->
  exists s, put_idx q idx v = Ok s /\ length s = n.
Proof.
  intros (Hl & Hnd & Hr) Hv Hq.
  rewrite put_idx_same_length by lia.
  destruct (put_pairs_spec (zip idx v) q) as (s & Hs & Hls & _).
  { apply Forall_forall. intros [i x] Hix. simpl.
    apply elem_of_zip_l in Hix. rewrite Forall_forall in Hr.
    rewrite Hq. by apply Hr. }
  { rewrite fst_zip by lia. exact Hnd. }
  exists s. split; [done|lia].
Qed.

Lemma write_block_Ok (R C : nat) rp i j blk :
  (i + 8 <= R)%nat -> (j + 8 <= C)%nat ->
  exists rp', write_block R C rp i j blk = Ok rp' /\ length rp' = length rp /\
    (Forall (fun row => length row = C) rp -> is_8x8 blk ->
     Forall (fun row => length row = C) rp').
Proof.
  intros Hi Hj. unfold write_block. rewrite decide_True by done.
  eexists. split; [done|]. split; [by rewrite length_imap|].
  intros Hrp [Hb Hbr]. apply Forall_lookup. intros r row Hrow.
  rewrite list_lookup_imap in Hrow.
  destruct (rp !! r) as [row0|] eqn:E; simpl in Hrow; [|done].
  injection Hrow as <-.
  rewrite Forall_lookup in Hrp. specialize (Hrp r row0 E).
  destruct (decide (i <= r < i + 8)%nat) as [Hin|]; [|done].
  destruct (lookup_lt_is_Some_2 blk (r - i)) as [brow Hbrow]; [lia|].
  rewrite Hbrow. simpl.
  rewrite Forall_lookup in Hbr. specialize (Hbr _ _ Hbrow).
  rewrite !length_app, !length_take, length_drop. lia.
Qed.

Section Rebuild.

Context (lib : Libs).

Lemma rebuild_block_Ok Q (R C : nat) coef_array rp idx i j :
  (i + 8 <= R)%nat -> (j + 8 <= C)%nat ->
  (idx < length coef_array)%nat -> rows_of_64 coef_array ->
  exists rp', rebuild_block lib Q R C coef_array (rp, idx) (i, j) = Ok (rp', S idx) /\
    length rp' = length rp /\
    (Forall (fun row => length row = C) rp -> is_8x8 Q ->
     (forall a, is_8x8 a -> is_8x8 (idct lib a)) ->
     Forall (fun row => length row = C) rp').
Proof.
  intros Hi Hj Hidx H64. unfold rebuild_block.
  destruct (lookup_lt_is_Some_2 coef_array idx Hidx) as [flat Hflat].
  rewrite Hflat. cbn [mbind result_bind].
  unfold rows_of_64 in H64. rewrite Forall_lookup in H64.
  specialize (H64 _ _ Hflat).
  destruct (put_idx_Ok_length 64 _ZIGZAG_POS (map f32_of_Z flat)
              (replicate 64 f32_zero)) as (q & Hq & Hlq).
  { apply ZIGZAG_POS_is_permutation. }
  { by rewrite length_map. }
  { by rewrite length_replicate. }
  rewrite Hq. cbn [mbind result_bind].
  set (blk := _idct2 lib _).
  destruct (write_block_Ok R C rp i j blk Hi Hj) as (rp' & Hw & Hl & Hs).
  rewrite Hw. cbn [mbind result_bind]. exists rp'. split; [done|]. split; [done|].
  intros Hrp HQ Hidct. apply Hs; [done|].
  unfold blk, _idct2. apply Hidct, transpose_is_8x8, Hidct, transpose_is_8x8.
  apply is_8x8_zip_with; [|done].
  destruct (flatten_reshape_rows 8 8 q Hlq) as (_ & H1 & H2). by split.
Qed.

Lemma rebuild_fold_Ok Q (R C : nat) coef_array coords rp idx :
  Forall (fun ij => (ij.1 + 8 <= R)%nat /\ (ij.2 + 8 <= C)%nat) coords ->
  (idx + length coords <= length coef_array)%nat -> rows_of_64 coef_array ->
  exists rp',
    result_foldl (rebuild_block lib Q R C coef_array) (rp, idx) coords
    = Ok (rp', (idx + length coords)%nat) /\
    length rp' = length rp /\
    (Forall (fun row => length row = C) rp -> is_8x8 Q ->
     (forall a, is_8x8 a -> is_8x8 (idct lib a)) ->
     Forall (fun row => length row = C) rp').
Proof.
  intros Hc. revert rp idx.
  induction Hc as [|[i j] coords [Hi Hj] _ IH]; intros rp idx Hlen H64.
  - exists rp. simpl. rewrite Nat.add_0_r. by repeat split.
  - cbn [result_foldl length fst snd] in *.
    destruct (rebuild_block_Ok Q R C coef_array rp idx i j Hi Hj ltac:(lia) H64)
      as (rp1 & H1 & Hl1 & Hs1).
    rewrite H1. cbn [mbind result_bind].
    destruct (IH rp1 (S idx) ltac:(lia) H64) as (rp' & H2 & Hl2 & Hs2).
    exists rp'. replace (idx + S (length coords))%nat with (S idx + length coords)%nat by lia.
    split; [done|]. split; [lia|]. intros Hrp HQ Hidct. apply Hs2; auto.
Qed.

Lemma ceil8_ge (h : Z) : 0 <= h -> h <= (h + 8 - 1) / 8 * 8.
Proof.
  intros Hh. pose proof (Z.div_mod (h + 8 - 1) 8 ltac:(lia)).
  pose proof (Z.mod_pos_bound (h + 8 - 1) 8 ltac:(lia)). lia.
Qed.

Lemma rebuild_channel_Ok Q (w h : Z) coef_array :
  0 <= w -> 0 <= h ->
  (Z.to_nat ((h + 8 - 1) / 8) * Z.to_nat ((w + 8 - 1) / 8) <= length coef_array)%nat ->
  rows_of_64 coef_array ->
  exists rec,
    rebuild_channel lib Q w h 8 ((w + 8 - 1) / 8) ((h + 8 - 1) / 8) coef_array = Ok rec /\
    length rec = Z.to_nat h /\
    (is_8x8 Q -> (forall a, is_8x8 a -> is_8x8 (idct lib a)) ->
     Forall (fun row => length row = Z.to_nat w) rec).
Proof.
  intros Hw Hh Hlen H64. unfold rebuild_channel.
  set (nH := Z.to_nat ((h + 8 - 1) / 8)) in *.
  set (nW := Z.to_nat ((w + 8 - 1) / 8)) in *.
  assert (HnH : 0 <= (h + 8 - 1) / 8) by (apply Z.div_pos; lia).
  assert (HnW : 0 <= (w + 8 - 1) / 8) by (apply Z.div_pos; lia).
  replace (Z.to_nat ((h + 8 - 1) / 8 * 8)) with (nH * 8)%nat
    by (unfold nH; rewrite Z2Nat.inj_mul by lia; done).
  replace (Z.to_nat ((w + 8 - 1) / 8 * 8)) with (nW * 8)%nat
    by (unfold nW; rewrite Z2Nat.inj_mul by lia; done).
  change (Z.to_nat 8) with 8%nat.
  rewrite !py_range0_mul by lia.
  set (coords := (_ <$> seq 0 nH) ≫= _).
  assert (Hcoords : Forall (fun ij => (ij.1 + 8 <= nH * 8)%nat /\ (ij.2 + 8 <= nW * 8)%nat)
                           coords).
  { apply Forall_forall. intros [i j] Hin. unfold coords in Hin.
    apply list_elem_of_bind in Hin as (i' & Hin & Hi).
    apply list_elem_of_bind in Hin as (j' & Hin & Hj).
    apply list_elem_of_singleton in Hin. injection Hin as -> ->.
    apply list_elem_of_fmap in Hi as (a & -> & Ha).
    apply list_elem_of_fmap in Hj as (b & -> & Hb).
    apply elem_of_seq in Ha, Hb. simpl. lia. }
  assert (Hlc : length coords = (nH * nW)%nat).
  { unfold coords. rewrite (length_bind_const _ _ nW), length_fmap, length_seq; [done|].
    intros a. rewrite (length_bind_const _ _ 1), length_fmap, length_seq; [lia|done]. }
  destruct (rebuild_fold_Ok Q (nH * 8) (nW * 8) coef_array coords
              (replicate (nH * 8) (replicate (nW * 8) f32_zero)) 0 Hcoords
              ltac:(lia) H64) as (rp' & Hf & Hl & Hs).
  rewrite Hf. cbn [mbind result_bind]. eexists. split; [done|].
  pose proof (ceil8_ge h Hh). pose proof (ceil8_ge w Hw).
  rewrite length_replicate in Hl.
  assert (Z.to_nat h <= nH * 8)%nat by (unfold nH; lia).
  assert (Z.to_nat w <= nW * 8)%nat by (unfold nW; lia).
  unfold _unblockify. split.
  - rewrite length_map, length_take. lia.
  - intros HQ Hidct. rewrite map_fmap. apply Forall_fmap.
    eapply Forall_impl; [apply Forall_take, Hs; auto|].
    + apply Forall_replicate. by rewrite length_replicate.
    + intros row Hrow. cbv beta in Hrow. simpl. rewrite length_take. lia.
Qed.

End Rebuild.

(** ** The decoder on the arrays of the encoder *)

Section RebuildOfEncode.

Context (lib : Libs).

Lemma encode_channel_Ok_shape Q H W ch coefs :
  encode_channel lib Q H W ch = Ok coefs ->
  length coefs = (Z.to_nat ((H + 8 - 1) / 8) * Z.to_nat ((W + 8 - 1) / 8))%nat /\
  rows_of_64 coefs.
Proof.
  unfold encode_channel.
  destruct (result_mapM _ _) as [ys|] eqn:E; simpl; [|done].
  apply result_mapM_Ok in E.
  destruct ys as [|y ys]; simpl; [done|]. intros [= <-].
  split.
  - rewrite <- (Forall2_length _ _ _ E). apply blockify_length.
  - apply Forall_forall. intros row Hrow.
    apply list_elem_of_lookup in Hrow as [k Hk].
    destruct (Forall2_lookup_r _ _ _ _ _ E Hk) as ([[i j] blk] & _ & Hblk).
    by apply encode_block_Ok in Hblk as [? _].
Qed.

(** X16. The block loop of the decoder accepts what the block loop of the
    encoder produced: on the coefficient array that [encode_channel] returns
    for an [H] x [W] channel, [rebuild_channel] with block size 8 raises
    nothing (no [IndexError], no shape mismatch), whatever 8x8 quantisation
    matrix it is given, and, the inverse transform keeping the 8x8 shape,
    returns an array of [H] rows of [W] samples. *)
Theorem rebuild_channel_of_encode_channel Q Q' (H W : Z) ch coefs :
  encode_channel lib Q H W ch = Ok coefs ->
  is_8x8 Q' ->
  (forall a, is_8x8 a -> is_8x8 (idct lib a)) ->
  exists rec,
    rebuild_channel lib Q' W H 8 ((W + 8 - 1) / 8) ((H + 8 - 1) / 8) coefs = Ok rec /\
    length rec = Z.to_nat H /\
    Forall (fun row => length row = Z.to_nat W) rec.
Proof.
  intros He HQ Hidct.
  destruct (encode_channel_Ok_dims lib _ _ _ _ _ He) as [HH HW].
  destruct (encode_channel_Ok_shape _ _ _ _ _ He) as [Hl H64].
  destruct (rebuild_channel_Ok lib Q' W H coefs) as (rec & Hr & Hlen & Hs);
    [lia|lia|lia|done|].
  exists rec. auto.
Qed.

End RebuildOfEncode.

Lemma rebuild_channel_of_encode_channel_witness :
  exists coefs rec,
    encode_channel Toy.libs (map (map IFin) _Q50) 2 2
      [[f32_of_Z 1; f32_of_Z 2]; [f32_of_Z 3; f32_of_Z 4]] = Ok coefs /\
    rebuild_channel Toy.libs (map (map IFin) _Q50) 2 2 8
      ((2 + 8 - 1) / 8) ((2 + 8 - 1) / 8) coefs = Ok rec /\
    length rec = Z.to_nat 2 /\
    Forall (fun row => length row = Z.to_nat 2) rec.
Proof.
  assert (E : exists coefs,
             encode_channel Toy.libs (map (map IFin) _Q50) 2 2
               [[f32_of_Z 1; f32_of_Z 2]; [f32_of_Z 3; f32_of_Z 4]] = Ok coefs)
    by (eexists; vm_compute; reflexivity).
  destruct E as [coefs E]. exists coefs.
  destruct (rebuild_channel_of_encode_channel Toy.libs _ (map (map IFin) _Q50)
              _ _ _ _ E) as (rec & Hr & Hl & Hs).
  - split; [reflexivity|]. repeat constructor.
  - intros a Ha. exact Ha.
  - exists rec. auto.
Defined.

(** ** What a successful decode implies *)

Lemma Z_to_nat_mul_pos x b : 0 < b -> Z.to_nat (x * b) = (Z.to_nat x * Z.to_nat b)%nat.
Proof.
  intros Hb. destruct (Z_le_gt_dec 0 x); [by rewrite Z2Nat.inj_mul by lia|].
  rewrite (Z2Nat.nonpos x) by lia. rewrite Z2Nat.nonpos by nia. done.
Qed.

Section DecodeRequires.

Context (lib : Libs).

Lemma rebuild_block_Ok_inv Q (R C : nat) coef_array st ij st' :
  rebuild_block lib Q R C coef_array st ij = Ok st' ->
  (st.2 < length coef_array)%nat /\ (ij.1 + 8 <= R)%nat /\ (ij.2 + 8 <= C)%nat /\
  st'.2 = S st.2.
Proof.
  destruct st as [rp idx], ij as [i j]. unfold rebuild_block. intros H.
  destruct (coef_array !! idx) as [flat|] eqn:E; [|done].
  cbn [mbind result_bind] in H.
  destruct (put_idx _ _ _) as [q|]; [|done].
  cbn [mbind result_bind] in H.
  unfold write_block in H.
  destruct (decide (i + 8 <= R /\ j + 8 <= C)%nat) as [[Hi Hj]|]; [|done].
  cbn [mbind result_bind] in H. injection H as <-.
  apply lookup_lt_Some in E. simpl. auto.
Qed.

Lemma rebuild_fold_Ok_inv Q (R C : nat) coef_array coords st st' :
  result_foldl (rebuild_block lib Q R C coef_array) st coords = Ok st' ->
  Forall (fun ij => (ij.1 + 8 <= R)%nat /\ (ij.2 + 8 <= C)%nat) coords /\
  st'.2 = (st.2 + length coords)%nat /\
  (coords <> [] -> st.2 + length coords <= length coef_array)%nat.
Proof.
  revert st. induction coords as [|ij coords IH]; intros st H.
  - injection H as <-. split; [constructor|]. split; [simpl; lia|done].
  - cbn [result_foldl] in H.
    destruct (rebuild_block lib Q R C coef_array st ij) as [st1|] eqn:E; [|done].
    cbn [mbind result_bind] in H.
    apply rebuild_block_Ok_inv in E as (Hidx & Hi & Hj & Hst).
    apply IH in H as (Hall & Hst' & Hlen).
    split; [by constructor|]. split; [simpl; lia|].
    intros _. simpl. destruct coords as [|ij' coords]; [simpl; lia|].
    specialize (Hlen ltac:(done)). simpl in *. lia.
Qed.

Lemma rebuild_channel_Ok_inv Q (w h bs bpr bpc : Z) coef_array rec :
  0 < bs ->
  rebuild_channel lib Q w h bs bpr bpc coef_array = Ok rec ->
  (1 <= bpc -> 1 <= bpr ->
   8 <= bs /\ (Z.to_nat bpc * Z.to_nat bpr <= length coef_array)%nat).
Proof.
  intros Hbs H Hc Hr. unfold rebuild_channel in H.
  rewrite !Z_to_nat_mul_pos in H by done.
  assert (Hb : (0 < Z.to_nat bs)%nat) by lia.
  rewrite !py_range0_mul in H by done.
  set (nH := Z.to_nat bpc) in *. set (nW := Z.to_nat bpr) in *.
  set (b := Z.to_nat bs) in *.
  destruct (result_foldl _ _ _) as [[rp idx]|] eqn:E; [|done].
  apply rebuild_fold_Ok_inv in E as (Hall & _ & Hlen).
  set (coords := (_ <$> seq 0 nH) ≫= _) in *.
  assert (Hlc : length coords = (nH * nW)%nat).
  { unfold coords. rewrite (length_bind_const _ _ nW), length_fmap, length_seq; [done|].
    intros a. rewrite (length_bind_const _ _ 1), length_fmap, length_seq; [lia|done]. }
  assert (Hlast : (((nH - 1) * b)%nat, ((nW - 1) * b)%nat) ∈ coords).
  { unfold coords. apply list_elem_of_bind. exists ((nH - 1) * b)%nat.
    split.
    - apply list_elem_of_bind. exists ((nW - 1) * b)%nat.
      split; [apply list_elem_of_singleton; done|].
      apply list_elem_of_fmap. exists (nW - 1)%nat. split; [done|].
      apply elem_of_seq. unfold nW. lia.
    - apply list_elem_of_fmap. exists (nH - 1)%nat. split; [done|].
      apply elem_of_seq. unfold nH. lia. }
  rewrite Forall_forall in Hall. destruct (Hall _ Hlast) as [H1 _]. simpl in H1.
  split.
  - assert (8 <= b)%nat; [|unfold b in *; lia].
    assert (1 <= nH)%nat by (unfold nH; lia). nia.
  - simpl in Hlen. rewrite <- Hlc. apply Hlen.
    intros Hnil. rewrite Hnil in Hlast. by apply elem_of_nil in Hlast.
Qed.

(** What the header of a container that decodes looks like, and the call
    that up-samples its base layer. *)
Lemma decompress_file_Ok_header (f : list byte) png st :
  decompress_file lib f = Ok (png, st) ->
  exists hdr rest base_img up_base,
    _unpack_header f = Ok (hdr, rest) /\
    (Z.to_nat (h_base_len hdr) + 8 <= length rest)%nat /\
    1 <= h_quality hdr <= 255 /\
    1 <= h_block_size hdr <= 255 /\
    (1 <= h_w hdr -> 1 <= h_h hdr -> 8 <= h_block_size hdr) /\
    Image_resize_BICUBIC lib base_img (h_w hdr, h_h hdr) = Ok up_base.
Proof.
  intros H. apply decompress_file_Ok in H as (hdr & recon & Hr & _ & _).
  apply reconstruct_Ok in Hr
    as (rest & payload_len & arr & cr & cg & cb & Q & rr & rg & rb & bi & up & Hr).
  cbv zeta in Hr.
  destruct Hr as (Hu & Hb & Hq & Hp & _ & _ & HQ & Hbs & Hreb & _ & _ & _ & Hres & _).
  pose proof (unpack_header_ranges _ _ _ Hu) as (Hw & Hh & _ & Hbr & _ & Hqr & _).
  apply unpack_Q_Ok in Hq as [Hl8 _]. rewrite length_take, length_drop in Hl8.
  apply quant_matrix_Ok_nonzero in HQ.
  exists hdr, rest, bi, up.
  split; [done|]. split; [lia|]. split; [lia|]. split; [lia|]. split; [|done].
  intros Hw1 Hh1.
  apply rebuild_channel_Ok_inv in Hreb as [H8 _]; [done|lia| |].
  - apply Z.div_le_lower_bound; lia.
  - apply Z.div_le_lower_bound; lia.
Qed.

(** X17. What a successful [decompress_file] implies about the container:
    its header parses, at least [base_len + 8] bytes follow it, the quality
    byte is not 0, the block size byte is not 0, and for an image of at
    least one pixel the block size is at least 8 (the 8x8 block written by
    the loop has to fit the last slot of the buffer). *)
Theorem decompress_file_requires (f : list byte) png st :
  decompress_file lib f = Ok (png, st) ->
  exists hdr rest,
    _unpack_header f = Ok (hdr, rest) /\
    (Z.to_nat (h_base_len hdr) + 8 <= length rest)%nat /\
    1 <= h_quality hdr <= 255 /\
    1 <= h_block_size hdr <= 255 /\
    (1 <= h_w hdr -> 1 <= h_h hdr -> 8 <= h_block_size hdr).
Proof.
  intros H.
  apply decompress_file_Ok_header in H
    as (hdr & rest & _ & _ & Hu & Hl & Hq & Hb & H8 & _).
  by exists hdr, rest.
Qed.

End DecodeRequires.

Lemma decompress_file_requires_witness :
  exists hdr rest,
    _unpack_header Toy.container_2x2 = Ok (hdr, rest) /\
    (Z.to_nat (h_base_len hdr) + 8 <= length rest)%nat /\
    1 <= h_quality hdr <= 255 /\
    1 <= h_block_size hdr <= 255 /\
    (1 <= h_w hdr -> 1 <= h_h hdr -> 8 <= h_block_size hdr).
Proof.
  eapply (decompress_file_requires Toy.libs Toy.container_2x2).
  vm_compute. reflexivity.
Defined.

(** ** From the encoder to the decoder *)

Section EncodeDecode.

Context (lib : Libs).

(** The statistics of the decoder are the fields of the header. *)
Lemma decompress_file_stats (f : list byte) png st :
  decompress_file lib f = Ok (png, st) ->
  exists hdr rest,
    _unpack_header f = Ok (hdr, rest) /\
    st = {| dec_w := h_w hdr; dec_h := h_h hdr; dec_down := h_down hdr;
            dec_quality := h_quality hdr; recon_bytes := Z.of_nat (length png) |}.
Proof.
  intros H. apply decompress_file_Ok in H as (hdr & recon & Hr & _ & ->).
  apply reconstruct_Ok in Hr as (rest & ? & ? & ? & ? & ? & ? & ? & ? & ? & ? & ? & Hr).
  cbv zeta in Hr. destruct Hr as (Hu & _).
  by exists hdr, rest.
Qed.

(** X18. The decoder reads back what the encoder wrote: in the container
    left by a successful [compress_image], the header parses, the next
    [base_len] bytes are the base layer, the 8 bytes after them hold the
    length of the payload, the payload follows, and nothing is left. *)
Theorem decoder_reads_encoder_layers path quality down
    (fs fs' : gmap string (list byte)) out_path stats :
  compress_image lib path quality down fs = (fs', Ok (out_path, stats)) ->
  exists data im base payload container hdr rest,
    fs !! path = Some data /\ Image_open lib data = Ok im /\
    encode_layers lib im quality down = Ok (base, payload) /\
    fs' !! out_path = Some container /\
    _unpack_header container = Ok (hdr, rest) /\
    let '(base_bytes, rest1) := f_read (Z.to_nat (h_base_len hdr)) rest in
    let '(payload_len_bytes, rest2) := f_read 8 rest1 in
    base_bytes = base /\
    unpack_Q payload_len_bytes = Ok (Z.of_nat (length payload)) /\
    f_read (length payload) rest2 = (payload, []).
Proof.
  intros Hc.
  apply compress_image_Ok in Hc
    as (data & im & base & payload & header & plen & Efs & Eim & El & Eh & Ep
        & -> & -> & _).
  apply pack_field_Ok in Ep as [Hrange ->].
  destruct (unpack_pack_header _ _ _ _ _ _ _ _
              (base ++ be_bytes 8 (Z.of_nat (length payload)) ++ payload) Eh)
    as [Hlen Hun].
  eexists data, im, base, payload, _, _, _.
  split; [done|]. split; [done|]. split; [done|].
  split; [apply lookup_insert_eq|]. split; [exact Hun|].
  cbn [h_base_len]. unfold f_read. rewrite Nat2Z.id.
  rewrite take_app_length, drop_app_length.
  assert (Hl8 : length (be_bytes 8 (Z.of_nat (length payload))) = 8%nat)
    by apply length_be_bytes.
  rewrite <- Hl8 at 1 3. rewrite take_app_length, drop_app_length.
  split; [done|]. split.
  - unfold unpack_Q. rewrite decide_True by done.
    by rewrite be_value_be_bytes.
  - by rewrite take_ge, drop_ge by done.
Qed.

(** X19. The statistics of the decoder agree with those of the encoder:
    when the container written by [compress_image] is decoded, the decoder
    reports the width, height, down-sampling factor and quality that the
    encoder reported. *)
Theorem decode_stats_match_encode path quality down
    (fs fs' : gmap string (list byte)) out_path stats container png dst :
  compress_image lib path quality down fs = (fs', Ok (out_path, stats)) ->
  fs' !! out_path = Some container ->
  decompress_file lib container = Ok (png, dst) ->
  dec_w dst = enc_w stats /\ dec_h dst = enc_h stats /\
  dec_down dst = enc_down stats /\ dec_quality dst = enc_quality stats.
Proof.
  intros Hc Hout Hd.
  apply compress_image_Ok in Hc
    as (data & im & base & payload & header & plen & _ & _ & _ & Eh & _
        & -> & -> & _ & _ & _ & -> & -> & -> & ->).
  rewrite lookup_insert_eq in Hout. injection Hout as <-.
  destruct (unpack_pack_header _ _ _ _ _ _ _ _ (base ++ plen ++ payload) Eh)
    as [_ Hun].
  apply decompress_file_stats in Hd as (hdr & rest & Hu & ->).
  rewrite Hun in Hu. injection Hu as <- _. done.
Qed.

(** X20. Conditions under which [decompress_file] returns: a header that
    parses with block size 8 and a quality other than 0, a [base_len] and a
    payload length below [2^63] (the sizes of the two reads), a complete
    length field, library calls that succeed on the two segments and on the
    images, an up-sampled base of the size of the header, and three
    coefficient arrays of 64 columns with at least one row per block.
    Nothing in the decoder's own code raises then. *)
Theorem decompress_file_succeeds (f : list byte) hdr rest payload_len arr
    coef_r coef_g coef_b base_img up_base :
  let base_len := Z.to_nat (h_base_len hdr) in
  let blocks := (Z.to_nat ((h_h hdr + 8 - 1) / 8) * Z.to_nat ((h_w hdr + 8 - 1) / 8))%nat in
  _unpack_header f = Ok (hdr, rest) ->
  h_block_size hdr = 8 -> h_quality hdr <> 0 ->
  h_base_len hdr < 2 ^ 63 ->
  unpack_Q (take 8 (drop base_len rest)) = Ok payload_len ->
  payload_len < 2 ^ 63 ->
  zlib_decompress lib (take (Z.to_nat payload_len) (drop 8 (drop base_len rest))) = Ok arr ->
  np_load lib arr = Ok (coef_r, coef_g, coef_b) ->
  Forall (fun c => (blocks <= length c)%nat /\ rows_of_64 c) [coef_r; coef_g; coef_b] ->
  Image_open lib (take base_len rest) = Ok base_img ->
  Image_resize_BICUBIC lib base_img (h_w hdr, h_h hdr) = Ok up_base ->
  im_size up_base = (h_w hdr, h_h hdr) ->
  (forall px, exists png,
     Image_save_PNG lib {| im_size := (h_w hdr, h_h hdr); im_px := px |} = Ok png) ->
  exists png,
    decompress_file lib f
    = Ok (png, {| dec_w := h_w hdr; dec_h := h_h hdr; dec_down := h_down hdr;
                  dec_quality := h_quality hdr;
                  recon_bytes := Z.of_nat (length png) |}).
Proof.
  intros base_len blocks Hu Hbs Hq Hbl Hpl Hpl63 Hz Hnp Hrows Hopen Hres Hsize Hsave.
  pose proof (unpack_header_ranges _ _ _ Hu) as (Hw & Hh & _ & _ & _ & Hq' & Hbl').
  pose proof (unpack_Q_Ok _ _ Hpl) as [_ Hpl'].
  destruct (quant_matrix_byte_cases (h_quality hdr) 0 0) as [_ HQ]; [lia|lia|lia|].
  destruct HQ as (Q & _ & HQ & _); [lia|].
  apply Forall_cons in Hrows as [[Hr1 Hr2] Hrows].
  apply Forall_cons in Hrows as [[Hg1 Hg2] Hrows].
  apply Forall_cons in Hrows as [[Hb1 Hb2] _].
  destruct (rebuild_channel_Ok lib Q (h_w hdr) (h_h hdr) coef_r) as (rec_r & Er & _);
    [lia|lia|done|done|].
  destruct (rebuild_channel_Ok lib Q (h_w hdr) (h_h hdr) coef_g) as (rec_g & Eg & _);
    [lia|lia|done|done|].
  destruct (rebuild_channel_Ok lib Q (h_w hdr) (h_h hdr) coef_b) as (rec_b & Eb & _);
    [lia|lia|done|done|].
  unfold decompress_file, reconstruct. rewrite Hu.
  cbn [mbind result_bind]. rewrite f_read_int_Ok by lia.
  unfold f_read. cbn [mbind result_bind].
  fold base_len. rewrite Hpl. cbn [mbind result_bind].
  rewrite f_read_int_Ok by lia. cbn [mbind result_bind].
  rewrite Hz. cbn [mbind result_bind]. rewrite Hnp. cbn [mbind result_bind].
  rewrite HQ. cbn [mbind result_bind]. rewrite Hbs.
  rewrite decide_False by done. cbn [mbind result_bind].
  rewrite Er. cbn [mbind result_bind]. rewrite Eg. cbn [mbind result_bind].
  rewrite Eb. cbn [mbind result_bind]. rewrite Hopen. cbn [mbind result_bind].
  rewrite Hres. cbn [mbind result_bind]. rewrite decide_True by done.
  cbn [mbind result_bind].
  match goal with
  | |- context [Image_save_PNG lib {| im_size := _; im_px := ?px |}] =>
      destruct (Hsave px) as [png Hpng]
  end.
  exists png. rewrite Hpng. reflexivity.
Qed.

End EncodeDecode.

Lemma decode_stats_match_encode_witness :
  dec_w (mkDecStats 2 2 2 50 16) = enc_w (mkEncStats 16 7 396 436 2 2 2 50) /\
  dec_h (mkDecStats 2 2 2 50 16) = enc_h (mkEncStats 16 7 396 436 2 2 2 50) /\
  dec_down (mkDecStats 2 2 2 50 16) = enc_down (mkEncStats 16 7 396 436 2 2 2 50) /\
  dec_quality (mkDecStats 2 2 2 50 16) = enc_quality (mkEncStats 16 7 396 436 2 2 2 50).
Proof.
  eapply (decode_stats_match_encode Toy.libs "in.png" 50 2 Toy.fs_2x2
            (<["in_mc2.mcmp2"%string := Toy.container_2x2]> Toy.fs_2x2)
            "in_mc2.mcmp2" _ Toy.container_2x2).
  - vm_compute. reflexivity.
  - apply lookup_insert_eq.
  - vm_compute. reflexivity.
Defined.

Lemma decoder_reads_encoder_layers_witness :
  exists data im base payload container hdr rest,
    Toy.fs_2x2 !! "in.png"%string = Some data /\ Image_open Toy.libs data = Ok im /\
    encode_layers Toy.libs im 50 2 = Ok (base, payload) /\
    (<["in_mc2.mcmp2"%string := Toy.container_2x2]> Toy.fs_2x2) !! "in_mc2.mcmp2"%string
    = Some container /\
    _unpack_header container = Ok (hdr, rest) /\
    let '(base_bytes, rest1) := f_read (Z.to_nat (h_base_len hdr)) rest in
    let '(payload_len_bytes, rest2) := f_read 8 rest1 in
    base_bytes = base /\
    unpack_Q payload_len_bytes = Ok (Z.of_nat (length payload)) /\
    f_read (length payload) rest2 = (payload, []).
Proof.
  apply (decoder_reads_encoder_layers Toy.libs "in.png" 50 2 Toy.fs_2x2
           (<["in_mc2.mcmp2"%string := Toy.container_2x2]> Toy.fs_2x2)
           "in_mc2.mcmp2" (mkEncStats 16 7 396 436 2 2 2 50)).
  vm_compute. reflexivity.
Defined.

Lemma decompress_file_succeeds_witness :
  exists png,
    decompress_file Toy.libs Toy.container_2x2
    = Ok (png, {| dec_w := 2; dec_h := 2; dec_down := 2; dec_quality := 50;
                  recon_bytes := Z.of_nat (length png) |}).
Proof.
  eapply (decompress_file_succeeds Toy.libs Toy.container_2x2 (mkHeader 2 2 3 8 2 50 7)).
  - vm_compute. reflexivity.
  - reflexivity.
  - discriminate.
  - reflexivity.
  - vm_compute. reflexivity.
  - reflexivity.
  - vm_compute. reflexivity.
  - vm_compute. reflexivity.
  - repeat apply Forall_cons_2; [| | |apply Forall_nil_2];
      (split; [apply Nat.leb_le; vm_compute; reflexivity
              |unfold rows_of_64; repeat constructor]).
  - vm_compute. reflexivity.
  - vm_compute. reflexivity.
  - reflexivity.
  - intros px. eexists. reflexivity.
Defined.

(** ** The reconstructed raster *)




(** ** Validation of the header by the decoder *)

Section DecodeValidation.

Context (lib : Libs).

(** A block size below 8 leaves no room for the 8x8 block that the loop
    writes (and 0 divides by zero). *)
Lemma decompress_file_small_block (f : list byte) hdr rest :
  _unpack_header f = Ok (hdr, rest) ->
  h_block_size hdr < 8 -> 1 <= h_w hdr -> 1 <= h_h hdr ->
  is_Ok (decompress_file lib f) = false.
Proof.
  intros Hu Hb Hw Hh.
  destruct (decompress_file lib f) as [[png st]|] eqn:E; [|done].
  apply decompress_file_Ok_header in E
    as (hdr' & rest' & _ & _ & Hu' & _ & _ & _ & H8 & _).
  rewrite Hu in Hu'. injection Hu' as <- <-. lia.
Qed.

(** The decoder asks Pillow for an up-sampled base of the size of the
    header; when Pillow refuses an empty size, a width or height of 0 does
    not decode. *)
Lemma decompress_file_empty_image (f : list byte) hdr rest :
  _unpack_header f = Ok (hdr, rest) ->
  (forall im w h, w = 0 \/ h = 0 ->
     is_Ok (Image_resize_BICUBIC lib im (w, h)) = false) ->
  h_w hdr = 0 \/ h_h hdr = 0 ->
  is_Ok (decompress_file lib f) = false.
Proof.
  intros Hu Hres Hz.
  destruct (decompress_file lib f) as [[png st]|] eqn:E; [|done].
  apply decompress_file_Ok_header in E
    as (hdr' & rest' & bi & up & Hu' & _ & _ & _ & _ & Hup).
  rewrite Hu in Hu'. injection Hu' as <- <-.
  specialize (Hres bi _ _ Hz). by rewrite Hup in Hres.
Qed.

End DecodeValidation.

(** C5, amended.  [decompress_file] fails with an error, and returns no
    raster, whenever the first five bytes of the container differ from
    "MC2v1" ([ValueError], also when there are fewer than five), whenever
    the magic is right and the header is shorter than 25 bytes
    ([struct.error]), and whenever the [block_size] field is below 8 (for
    an image of at least one pixel).  A [width] or [height] of 0 fails as
    well, in the call that resizes the base layer: Pillow refuses an empty
    size.  The [channels] byte (offset 13) is read and never examined:
    overwriting it changes nothing in the outcome; and a [block_size] above
    8 is not rejected. *)
Theorem decode_header_validation (lib : Libs) (f : list byte) (b : byte) :
  (take 5 f <> MAGIC -> decompress_file lib f = Raise ValueError) /\
  (take 5 f = MAGIC -> (length f < 25)%nat ->
   decompress_file lib f = Raise StructError) /\
  decompress_file lib (<[13%nat := b]> f) = decompress_file lib f /\
  (forall hdr rest,
     _unpack_header f = Ok (hdr, rest) ->
     (h_block_size hdr < 8 -> 1 <= h_w hdr -> 1 <= h_h hdr ->
      is_Ok (decompress_file lib f) = false) /\
     ((forall im w h, w = 0 \/ h = 0 ->
         is_Ok (Image_resize_BICUBIC lib im (w, h)) = false) ->
      h_w hdr = 0 \/ h_h hdr = 0 ->
      is_Ok (decompress_file lib f) = false)).
Proof.
  split; [apply decompress_file_bad_magic|].
  split; [apply decompress_file_short_header|].
  split; [apply decompress_file_insert_channels|].
  intros hdr rest Hu. split.
  - by apply (decompress_file_small_block lib f hdr rest).
  - by apply (decompress_file_empty_image lib f hdr rest).
Qed.

Lemma decode_header_validation_witness :
  decompress_file Toy.libs (<[0%nat := byte_of_Z 88]> Toy.container_2x2)
  = Raise ValueError /\
  decompress_file Toy.libs (take 24 Toy.container_2x2) = Raise StructError /\
  decompress_file Toy.libs (<[13%nat := byte_of_Z 4]> Toy.container_2x2)
  = decompress_file Toy.libs Toy.container_2x2 /\
  is_Ok (decompress_file Toy.libs (<[14%nat := byte_of_Z 4]> Toy.container_2x2))
  = false /\
  is_Ok (decompress_file Toy.libs (<[8%nat := byte_of_Z 0]> Toy.container_2x2))
  = false.
Proof.
  split; [|split; [|split; [|split]]].
  - apply (decode_header_validation Toy.libs _ (byte_of_Z 4)).
    vm_compute. discriminate.
  - apply (decode_header_validation Toy.libs _ (byte_of_Z 4));
      [reflexivity | vm_compute; lia].
  - apply (decode_header_validation Toy.libs Toy.container_2x2 (byte_of_Z 4)).
  - destruct (decode_header_validation Toy.libs
                (<[14%nat := byte_of_Z 4]> Toy.container_2x2) (byte_of_Z 4))
      as (_ & _ & _ & H).
    destruct (H (mkHeader 2 2 3 4 2 50 7)
                (drop 25 (<[14%nat := byte_of_Z 4]> Toy.container_2x2)))
      as [H4 _]; [vm_compute; reflexivity|].
    apply H4; [reflexivity | discriminate | discriminate].
  - destruct (decode_header_validation Toy.libs
                (<[8%nat := byte_of_Z 0]> Toy.container_2x2) (byte_of_Z 4))
      as (_ & _ & _ & H).
    destruct (H (mkHeader 0 2 3 8 2 50 7)
                (drop 25 (<[8%nat := byte_of_Z 0]> Toy.container_2x2)))
      as [_ H0]; [vm_compute; reflexivity|].
    apply H0; [|by left].
    intros im w h Hz. cbn. unfold Toy.resize.
    destruct (im_size im) as [ow oh].
    by rewrite decide_False by lia.
Defined.

(** C5 as stated fails: the container of the 2x2 image with its [channels]
    byte set to 4, and the same container with its [block_size] byte set to
    16, are both decoded without an error. *)
Lemma decode_accepts_other_channels_and_block_size :
  ((fun '(hdr, _) => h_channels hdr)
     <$> _unpack_header (<[13%nat := byte_of_Z 4]> Toy.container_2x2)) = Ok 4 /\
  is_Ok (decompress_file Toy.libs (<[13%nat := byte_of_Z 4]> Toy.container_2x2))
  = true /\
  ((fun '(hdr, _) => h_block_size hdr)
     <$> _unpack_header (<[14%nat := byte_of_Z 16]> Toy.container_2x2)) = Ok 16 /\
  is_Ok (decompress_file Toy.libs (<[14%nat := byte_of_Z 16]> Toy.container_2x2))
  = true.
Proof. repeat split; vm_compute; reflexivity. Qed.

(** ** The quantised coefficients of 8-bit images *)

(** *** Magnitude of a quotient of floats *)






















(** *** The blocks of a residual *)













(** On that block the first coefficient is 10 - 255 = -245 and the first
    quantisation step is 16: the stored value is round(-15.3125) = -15. *)
Example quantised_coefficient_2x2 :
  cell_at (quantize (map (map IFin) _Q50) (_dct2 Toy.libs
      (slice2 0 8 0 8
         (pad_zeros f32_zero 8 8
            (channel 0 (residual_of
               (asarray_f32 (mkImage (2, 2) [[(10, 20, 30); (40, 50, 60)]; [(70, 80, 90); (200, 210, 220)]]))
               (asarray_f32 (mkImage (2, 2) [[(255, 0, 0); (0, 255, 0)]; [(0, 0, 255); (0, 0, 0)]])))))))) 0 0 = Some (- 15).
Proof. vm_compute. reflexivity. Qed.
